(** * zipfix.merge: an in-memory three-way merge of git trees

    A shallow embedding of [zipfix/merge.py] and the properties of its
    entry-level, tree-level and blob-level merge and of [rebase].

    Python values are modelled as follows.
    - [bytes] is [list byte]; [str] is [string] (its UTF-8 encoding).
    - [Optional[X]] is [option X]; a dict is a [gmap], a set a [gset].
    - A function that prints, reads standard input or runs a subprocess is
      a computation in the monad [M]: it takes a [World] (the lines still
      to be read from standard input and the trace of events so far) and
      returns a value or a raised exception, and the new world.
    - The recursion [merge_trees -> merge_entries -> merge_trees] is bounded
      by a [fuel] argument that plays the role of the interpreter's
      recursion limit: [RecursionError] is raised when it is exhausted. *)

From Stdlib Require Import ZArith NArith List String Ascii Bool Lia.
From Stdlib.Strings Require Import Byte.
From stdpp Require Import base decidable option countable list gmap strings pretty.

Open Scope string_scope.
Open Scope list_scope.

(** ** Bytes and text *)

Abbreviation bytes := (list byte).

#[global] Instance byte_eq_dec : EqDecision byte := Byte.byte_eq_dec.
#[global] Instance byte_countable : Countable byte :=
  inj_countable Byte.to_N Byte.of_N Byte.of_to_N.

Definition continuation (b : N) : bool := ((0x80 <=? b) && (b <=? 0xBF))%N.

(** Well-formed UTF-8 (RFC 3629): shortest forms only, no surrogates,
    nothing above U+10FFFF.  This is what [bytes.decode()] accepts. *)
Fixpoint utf8_valid (bs : list N) : bool :=
  match bs with
  | [] => true
  | b0 :: t0 =>
    if (b0 <? 0x80)%N then utf8_valid t0 else
    match t0 with
    | [] => false
    | b1 :: t1 =>
      if ((0xC2 <=? b0) && (b0 <=? 0xDF))%N then continuation b1 && utf8_valid t1 else
      match t1 with
      | [] => false
      | b2 :: t2 =>
        if (b0 =? 0xE0)%N then
          ((0xA0 <=? b1) && (b1 <=? 0xBF))%N && continuation b2 && utf8_valid t2
        else if (b0 =? 0xED)%N then
          ((0x80 <=? b1) && (b1 <=? 0x9F))%N && continuation b2 && utf8_valid t2
        else if ((0xE1 <=? b0) && (b0 <=? 0xEF))%N then
          continuation b1 && continuation b2 && utf8_valid t2
        else
        match t2 with
        | [] => false
        | b3 :: t3 =>
          if (b0 =? 0xF0)%N then
            ((0x90 <=? b1) && (b1 <=? 0xBF))%N
              && continuation b2 && continuation b3 && utf8_valid t3
          else if (b0 =? 0xF4)%N then
            ((0x80 <=? b1) && (b1 <=? 0x8F))%N
              && continuation b2 && continuation b3 && utf8_valid t3
          else if ((0xF1 <=? b0) && (b0 <=? 0xF3))%N then
            continuation b1 && continuation b2 && continuation b3 && utf8_valid t3
          else false
        end
      end
    end
  end.

(** [ch.lower()]: only the ASCII letters matter to the one comparison the
    program makes with the result (against ['y']). *)
Definition ascii_lower (c : ascii) : ascii :=
  let n := N_of_ascii c in
  if ((65 <=? n) && (n <=? 90))%N then ascii_of_N (n + 32) else c.

Fixpoint lower (s : string) : string :=
  match s with
  | EmptyString => EmptyString
  | String c s' => String (ascii_lower c) (lower s')
  end.

(** ** The object model ([zipfix.odb]) *)

(** Modelled from the spec: [odb.Mode] is not among the sources; the spec's
    data model lists five entry kinds and says that [is_file()] is true for
    the regular and the executable file only. *)
Inductive Mode := REGULAR | EXEC | DIR | SYMLINK | GITLINK.

#[global] Instance Mode_eq_dec : EqDecision Mode.
Proof. solve_decision. Defined.

(** Modelled from the spec: [Mode.is_file()], true for the two file modes. *)
Definition is_file (m : Mode) : bool :=
  match m with
  | REGULAR | EXEC => true
  | _ => false
  end.

(** Python exceptions the merge can raise. *)
Inductive Exn :=
| MergeConflict (msg : string)
| ValueError (msg : string)
| UnicodeDecodeError
| EOFError
| FileNotFoundError
| RecursionError.

#[global] Instance Exn_eq_dec : EqDecision Exn.
Proof. solve_decision. Defined.

(** [except MergeConflict] catches exactly the exceptions of that class. *)
Definition is_MergeConflict (e : Exn) : bool :=
  match e with
  | MergeConflict _ => true
  | _ => false
  end.

Inductive Result (A : Type) :=
| Ok (a : A)
| Raise (e : Exn).
Arguments Ok {A} a.
Arguments Raise {A} e.

(** [labels: Tuple[str, str, str]] *)
Abbreviation Labels := (string * string * string)%type.
Definition label0 (l : Labels) : string := l.1.1.
Definition label1 (l : Labels) : string := l.1.2.
Definition label2 (l : Labels) : string := l.2.

(** [bytes.decode()]: strict UTF-8. *)
Definition decode (b : bytes) : Result string :=
  if utf8_valid (map Byte.to_N b) then Ok (string_of_list_byte b)
  else Raise UnicodeDecodeError.

(** ** Entries, trees, blobs *)

Section Merge.

(** [odb.Oid]: an opaque content hash, compared with [==]. *)
Context {Oid : Type} `{!EqDecision Oid}.

(** Modelled from the spec: [odb.Entry] is not among the sources; an entry
    is the pair of a mode and an oid and [==] on entries is structural. *)
Record Entry := mkEntry { mode : Mode; oid : Oid }.

#[global] Instance Entry_eq_dec : EqDecision Entry.
Proof. solve_decision. Defined.

(** Modelled from the spec: [odb.Tree] is not among the sources; a tree is
    its [entries], a mapping from names (byte strings) to entries;
    [Tree.create(entries)] is the tree with these entries and
    [Tree.empty()] the one with none. *)
Record Tree := mkTree { entries : gmap bytes Entry }.

Definition Tree_empty : Tree := mkTree ∅.

(** Modelled from the spec: [odb.Blob] is not among the sources; a blob is
    its [body]. *)
Record Blob := mkBlob { body : bytes }.

(** Modelled from the spec: the rest of the object database, which is not
    among the sources: the hash of a blob and of a tree ([.oid]), the
    objects an entry refers to ([.blob()], [.tree()], [.symlink()]), the
    printed form of a mode and of an oid, and commits. *)
Class Odb := {
  Blob_oid : Blob → Oid;
  Tree_oid : Tree → Oid;
  Entry_blob : Entry → Blob;
  Entry_tree : Entry → Tree;
  Entry_symlink : Entry → bytes;
  Mode_str : Mode → string;
  Oid_str : Oid → string;
  Commit : Type;
  Commit_oid : Commit → Oid;
  Commit_parent : Commit → Commit;
  Commit_tree : Commit → Tree;
  Commit_message : Commit → bytes;
  Commit_author : Commit → bytes;
  Commit_create : Oid → list Oid → bytes → bytes → Commit;
}.

(** What the merge uses of the Python library and of the machine it runs
    on: [pathlib.Path], [bytes.decode(errors='replace')], the order in
    which a [set] of names is iterated, and the two merge tools. *)
Class Host := {
  Path : Type;
  path_root : Path;                      (* Path('/') *)
  path_div : Path → string → Path;       (* path / name *)
  path_str : Path → string;              (* str(path) *)
  decode_replace : bytes → string;
  set_iter : gset bytes → list bytes;
  set_iter_perm : ∀ s, set_iter s ≡ₚ elements s;
  (* git merge-file -q -p -L l0 -L l1 -L l2 current base other:
     the return code and the standard output *)
  git_merge_file : string → string → string → bytes → bytes → bytes → Z * bytes;
  (* kdiff3 --merge --auto -o merged --L1 l1 --L2 l2 --L3 l3 base current other:
     the content of the file [merged], if the tool wrote one *)
  kdiff3 : string → string → string → bytes → bytes → bytes → option bytes;
}.

Context `{!Odb} `{!Host}.

(** ** The world and the monad of effects *)

Inductive Event :=
| EvPrint (line : string)
| EvInput (prompt : string) (reply : option string)
| EvGitMergeFile (current_lbl base_lbl other_lbl : string) (current base other : bytes)
| EvKdiff3 (base_lbl current_lbl other_lbl : string) (base current other : bytes)
| EvTreeCreate (t : Tree)
| EvCommitCreate (c : Commit).

Record World := mkWorld { stdin : list string; trace : list Event }.

Definition M (A : Type) : Type := World → Result A * World.

Definition ret {A} (a : A) : M A := fun w => (Ok a, w).
Definition raise {A} (e : Exn) : M A := fun w => (Raise e, w).
Definition bind {A B} (c : M A) (k : A → M B) : M B :=
  fun w => match c w with
           | (Ok a, w') => k a w'
           | (Raise e, w') => (Raise e, w')
           end.

#[global] Instance M_ret : MRet M := @ret.
#[global] Instance M_bind : MBind M := fun A B k c => bind c k.

Definition lift {A} (r : Result A) : M A := fun w => (r, w).

Definition emit (e : Event) : M unit :=
  fun w => (Ok tt, mkWorld (stdin w) (trace w ++ [e])).

(** [print(line)] *)
Definition print (line : string) : M unit := emit (EvPrint line).

(** [input(prompt)]: the next line of standard input, [EOFError] if there
    is none. *)
Definition input (prompt : string) : M string :=
  fun w => match stdin w with
           | [] => (Raise EOFError, mkWorld [] (trace w ++ [EvInput prompt None]))
           | l :: ls => (Ok l, mkWorld ls (trace w ++ [EvInput prompt (Some l)]))
           end.

(** [Tree.create(entries)] *)
Definition Tree_create (es : gmap bytes Entry) : M Tree :=
  emit (EvTreeCreate (mkTree es)) ;; ret (mkTree es).

(** ** [conflict_prompt] *)

Definition conflict_prompt {T} (path : Path) (descr : string) (labels : Labels)
    (current : T) (current_descr : string)
    (other : T) (other_descr : string) : M T :=
  print (descr +:+ " conflict for '" +:+ path_str path +:+ "'") ;;
  print ("  (1) " +:+ label0 labels +:+ ": " +:+ current_descr) ;;
  print ("  (2) " +:+ label1 labels +:+ ": " +:+ other_descr) ;;
  ch ← input "Resolution or (A)bort? ";
  if String.eqb ch "1" then ret current
  else if String.eqb ch "2" then ret other
  else raise (MergeConflict "aborted").

(** What one run of [conflict_prompt] adds to the trace. *)
Definition prompt_events (path : Path) (descr : string) (labels : Labels)
    (current_descr other_descr : string) (reply : option string) : list Event :=
  [ EvPrint (descr +:+ " conflict for '" +:+ path_str path +:+ "'");
    EvPrint ("  (1) " +:+ label0 labels +:+ ": " +:+ current_descr);
    EvPrint ("  (2) " +:+ label1 labels +:+ ": " +:+ other_descr);
    EvInput "Resolution or (A)bort? " reply ].

(** The events of the conflict resolver and those of the content merger. *)
Definition is_resolver_event (e : Event) : bool :=
  match e with
  | EvInput prompt _ => String.eqb prompt "Resolution or (A)bort? "
  | _ => false
  end.

Definition is_merger_event (e : Event) : bool :=
  match e with
  | EvGitMergeFile _ _ _ _ _ _ | EvKdiff3 _ _ _ _ _ _ => true
  | EvInput prompt _ => String.eqb prompt "Have conflicts resolved successfully? (y/N) "
  | _ => false
  end.

(** ** [merge_blobs] *)

(** [f"{path} ({label})"] *)
Definition blob_label (path : Path) (label : string) : string :=
  path_str path +:+ " (" +:+ label +:+ ")".

Definition merge_blobs (path : Path) (labels : Labels)
    (current : Blob) (base : option Blob) (other : Blob) : M Blob :=
  (* the three files of the temporary directory *)
  let f_current := body current in
  let f_base := match base with Some b => body b | None => [] end in
  let f_other := body other in
  let current_lbl := blob_label path (label0 labels) in
  let base_lbl := blob_label path (label1 labels) in
  let other_lbl := blob_label path (label2 labels) in
  emit (EvGitMergeFile current_lbl base_lbl other_lbl f_current f_base f_other) ;;
  let process := git_merge_file current_lbl base_lbl other_lbl f_current f_base f_other in
  if (process.1 =? 0)%Z then ret (mkBlob process.2)
  else if (process.1 <? 0)%Z then raise (MergeConflict "git merge-file errored")
  else
    emit (EvKdiff3 base_lbl current_lbl other_lbl f_base f_current f_other) ;;
    let merged := kdiff3 base_lbl current_lbl other_lbl f_base f_current f_other in
    ch ← input "Have conflicts resolved successfully? (y/N) ";
    if negb (String.eqb (lower ch) "y") then raise (MergeConflict "merging failed")
    else match merged with
         | Some b => ret (mkBlob b)
         | None => raise FileNotFoundError
         end.

(** The two tool runs of [merge_blobs], as they appear in the trace, and
    their outcomes. *)
Definition base_body (base : option Blob) : bytes :=
  match base with Some b => body b | None => [] end.

Definition ev_merge_file (path : Path) (labels : Labels)
    (current : Blob) (base : option Blob) (other : Blob) : Event :=
  EvGitMergeFile (blob_label path (label0 labels)) (blob_label path (label1 labels))
    (blob_label path (label2 labels)) (body current) (base_body base) (body other).

Definition run_merge_file (path : Path) (labels : Labels)
    (current : Blob) (base : option Blob) (other : Blob) : Z * bytes :=
  git_merge_file (blob_label path (label0 labels)) (blob_label path (label1 labels))
    (blob_label path (label2 labels)) (body current) (base_body base) (body other).

Definition ev_kdiff3 (path : Path) (labels : Labels)
    (current : Blob) (base : option Blob) (other : Blob) : Event :=
  EvKdiff3 (blob_label path (label1 labels)) (blob_label path (label0 labels))
    (blob_label path (label2 labels)) (base_body base) (body current) (body other).

Definition run_kdiff3 (path : Path) (labels : Labels)
    (current : Blob) (base : option Blob) (other : Blob) : option bytes :=
  kdiff3 (blob_label path (label1 labels)) (blob_label path (label0 labels))
    (blob_label path (label2 labels)) (base_body base) (body current) (body other).

Definition confirm_prompt : string := "Have conflicts resolved successfully? (y/N) ".

(** ** [merge_trees] and [merge_entries] *)

(** [for x in xs: acc = body(x, acc)], stopping at the first exception. *)
Fixpoint for_each {A S} (xs : list A) (body : A → S → M S) (acc : S) : M S :=
  match xs with
  | [] => ret acc
  | x :: xs' => acc' ← body x acc; for_each xs' body acc'
  end.

(** The set of names mentioned in any of the three trees. *)
Definition names_of (current base other : Tree) : gset bytes :=
  dom (entries current) ∪ (dom (entries base) ∪ dom (entries other)).

(** One turn of the loop of [merge_trees]: the entry merged for [name] is
    added to the dict [es] unless it is [None]. *)
Definition merge_named
    (merge_entries : Path → Labels → option Entry → option Entry → option Entry
                     → M (option Entry))
    (path : Path) (labels : Labels) (current base other : Tree)
    (name : bytes) (es : gmap bytes Entry) : M (gmap bytes Entry) :=
  merged ← merge_entries (path_div path (decode_replace name)) labels
             (entries current !! name)
             (entries base !! name)
             (entries other !! name);
  match merged with
  | Some e => ret (<[name := e]> es)
  | None => ret es
  end.

(** The body of [merge_trees], given the function it calls on every name. *)
Definition merge_trees_with
    (merge_entries : Path → Labels → option Entry → option Entry → option Entry
                     → M (option Entry))
    (path : Path) (labels : Labels) (current base other : Tree) : M Tree :=
  (* Merge every named entry which is mentioned in any tree. *)
  let names := names_of current base other in
  es ← for_each (set_iter names)
         (merge_named merge_entries path labels current base other) ∅;
  Tree_create es.

(** The truth value of [base and base.mode == m]. *)
Definition base_mode_is (base : option Entry) (m : Mode) : bool :=
  match base with
  | Some b => bool_decide (mode b = m)
  | None => false
  end.

(** The mode chosen for two file entries whose modes differ. *)
Definition pick_file_mode (current : Entry) (base : option Entry) (other : Entry) : Mode :=
  if base_mode_is base (mode current) then mode other
  else if base_mode_is base (mode other) then mode current
  else EXEC.

Fixpoint merge_entries (fuel : nat) (path : Path) (labels : Labels)
    (current base other : option Entry) : M (option Entry) :=
  if bool_decide (base = current) then ret other
  else if bool_decide (base = other) then ret current
  else if bool_decide (current = other) then ret current
  else
  match current, other with
  | None, _ =>
      conflict_prompt path "Deletion" labels current "deleted" other "modified"
  | _, None =>
      conflict_prompt path "Deletion" labels current "modified" other "deleted"
  | Some c, Some o =>
      (* Time to merge the actual entries! *)
      let merge_as (m : Mode) : M (option Entry) :=
        if is_file m then
          let baseblob :=
            match base with
            | Some b => if is_file (mode b) then Some (Entry_blob b) else None
            | None => None
            end in
          blob ← merge_blobs path labels (Entry_blob c) baseblob (Entry_blob o);
          ret (Some (mkEntry m (Blob_oid blob)))
        else if bool_decide (m = DIR) then
          let basetree :=
            match base with
            | Some b => if bool_decide (mode b = DIR) then Entry_tree b else Tree_empty
            | None => Tree_empty
            end in
          match fuel with
          | O => raise RecursionError
          | S fuel' =>
              tree ← merge_trees_with (merge_entries fuel') path labels
                       (Entry_tree c) basetree (Entry_tree o);
              ret (Some (mkEntry m (Tree_oid tree)))
          end
        else if bool_decide (m = SYMLINK) then
          current_descr ← lift (decode (Entry_symlink c));
          other_descr ← lift (decode (Entry_symlink o));
          conflict_prompt path "Symlink" labels current current_descr other other_descr
        else if bool_decide (m = GITLINK) then
          conflict_prompt path "Submodule" labels
            current (Oid_str (oid c)) other (Oid_str (oid o))
        else raise (ValueError "unknown mode") in
      (* Determine which mode we're working with here. *)
      if bool_decide (mode c = mode o) then merge_as (mode c)
      else if is_file (mode c) && is_file (mode o) then merge_as (pick_file_mode c base o)
      else conflict_prompt path "Entry type" labels
             current (Mode_str (mode c)) other (Mode_str (mode o))
  end.

(** The mode the spec gives two file entries whose modes differ: that of
    [other] when the base has the mode of [current], else that of [current]
    when the base has the mode of [other], else the executable one.  The
    base mode is [None] when the base entry is absent. *)
Definition spec_file_mode (base_mode : option Mode) (current_mode other_mode : Mode)
    : Mode :=
  if decide (base_mode = Some current_mode) then other_mode
  else if decide (base_mode = Some other_mode) then current_mode
  else EXEC.

(** The blob given to [merge_blobs] as the common ancestor. *)
Definition base_blob (base : option Entry) : option Blob :=
  match base with
  | Some b => if is_file (mode b) then Some (Entry_blob b) else None
  | None => None
  end.

(** The content merge of two file entries under the mode [m]. *)
Definition merge_files (path : Path) (labels : Labels) (m : Mode)
    (c : Entry) (base : option Entry) (o : Entry) : M (option Entry) :=
  blob ← merge_blobs path labels (Entry_blob c) (base_blob base) (Entry_blob o);
  ret (Some (mkEntry m (Blob_oid blob))).

(** The three comparisons of [merge_entries] all fail. *)
Definition conflicting (current base other : option Entry) : Prop :=
  base ≠ current ∧ base ≠ other ∧ current ≠ other.

Definition merge_trees (fuel : nat) : Path → Labels → Tree → Tree → Tree → M Tree :=
  merge_trees_with (merge_entries fuel).

(** ** Notions used to state the properties *)

(** [w'] is a later world than [w]: standard input has only been consumed
    and the trace has only grown. *)
Definition world_le (w w' : World) : Prop :=
  (∃ used, stdin w = used ++ stdin w') ∧ (∃ events, trace w' = trace w ++ events).

(** A computation that only moves the world forward. *)
Definition monotone {A} (c : M A) : Prop := ∀ w, world_le w (c w).2.

(** A computation whose exceptions all satisfy [P]. *)
Definition raises_only {A} (P : Exn → Prop) (c : M A) : Prop :=
  ∀ w e, (c w).1 = Raise e → P e.

(** The exceptions of a merge: those of the resolver (an aborted prompt,
    the end of standard input), those of the content merger (a failed tool,
    an unconfirmed merge, a missing merged file), an undecodable symlink
    target, and the recursion limit. *)
Definition merge_exn (e : Exn) : Prop :=
  e = MergeConflict "aborted" ∨ e = EOFError
  ∨ e = MergeConflict "git merge-file errored"
  ∨ e = MergeConflict "merging failed" ∨ e = FileNotFoundError
  ∨ e = UnicodeDecodeError ∨ e = RecursionError.

(** The directories of [t] nest at most [n] deep. *)
Fixpoint shallow (n : nat) (t : Tree) : Prop :=
  match n with
  | O => map_Forall (fun _ e => mode e ≠ DIR) (entries t)
  | S n' => map_Forall (fun _ e => mode e = DIR → shallow n' (Entry_tree e)) (entries t)
  end.

(** A directory entry needs one unit of fuel and what its tree needs. *)
Definition entry_fits (fuel : nat) (current : option Entry) : Prop :=
  ∀ c, current = Some c → mode c = DIR →
       match fuel with
       | O => False
       | S fuel' => shallow fuel' (Entry_tree c)
       end.

#[global] Instance shallow_dec (n : nat) (t : Tree) : Decision (shallow n t).
Proof. revert t. induction n as [|n IH]; intros t; cbn; apply _. Defined.

(** One of the three comparisons of [merge_entries] holds. *)
Definition settled (current base other : option Entry) : Prop :=
  base = current ∨ base = other ∨ current = other.

(** What the three rules of [merge_entries] give a settled entry. *)
Definition resolve (current base other : option Entry) : option Entry :=
  if decide (base = current) then other else current.

(** A computation that adds to the trace only events that satisfy [P]. *)
Definition emits_only {A} (P : Event → Prop) (c : M A) : Prop :=
  ∀ w, ∃ events, trace (c w).2 = trace w ++ events ∧ Forall P events.

(** The events of the object database. *)
Definition is_commit_event (e : Event) : bool :=
  match e with
  | EvCommitCreate _ => true
  | _ => false
  end.


(** The tree given to the nested [merge_trees] as the common ancestor. *)
Definition base_tree (base : option Entry) : Tree :=
  match base with
  | Some b => if bool_decide (mode b = DIR) then Entry_tree b else Tree_empty
  | None => Tree_empty
  end.

(** A computation whose results all satisfy [P]. *)
Definition returns_only {A} (P : A → Prop) (c : M A) : Prop :=
  ∀ w a w', c w = (Ok a, w') → P a.

(** The entries that [merge_entries] may return for [current] and [other]:
    one of the two as it is, or a new file or directory entry when both are
    files or both are directories. *)
Definition merged_from (current other : option Entry) (r : option Entry) : Prop :=
  r = current ∨ r = other
  ∨ ∃ c o e, current = Some c ∧ other = Some o ∧ r = Some e
      ∧ ((is_file (mode c) = true ∧ is_file (mode o) = true ∧ is_file (mode e) = true
          ∧ (mode e = mode c ∨ mode e = mode o ∨ mode e = EXEC))
         ∨ (mode c = DIR ∧ mode o = DIR ∧ mode e = DIR)).


(** ** [rebase] *)

(** [Commit.create(tree, parents, message, author)] *)
Definition Commit_create' (tree : Oid) (parents : list Oid) (message author : bytes)
    : M Commit :=
  let c := Commit_create tree parents message author in
  emit (EvCommitCreate c);; ret c.

(** Modelled from the spec: [==] on commits compares their oids. *)
Definition Commit_eqb (a b : Commit) : bool := bool_decide (Commit_oid a = Commit_oid b).

Definition rebase (fuel : nat) (commit parent : Commit) : M Commit :=
  if Commit_eqb (Commit_parent commit) parent then ret commit (* No need to do anything *)
  else
    tree ← merge_trees fuel path_root ("new parent", "old parent", "incoming")
             (Commit_tree parent) (Commit_tree (Commit_parent commit)) (Commit_tree commit);
    Commit_create' (Tree_oid tree) [Commit_oid parent]
      (Commit_message commit) (Commit_author commit).

End Merge.

(** ** A small repository and host, to run the merge on *)

Module Sample.

Definition b (s : string) : bytes := list_byte_of_string s.

(** Git's numeric modes (100644, 100755, 40000, 120000, 160000 in octal). *)
Definition mode_code (m : Mode) : N :=
  match m with
  | REGULAR => 0x81A4
  | EXEC => 0x81ED
  | DIR => 0x4000
  | SYMLINK => 0xA000
  | GITLINK => 0xE000
  end.

Definition file_a : Entry := mkEntry REGULAR 1%N.
Definition file_b : Entry := mkEntry REGULAR 2%N.
Definition file_bang : Entry := mkEntry REGULAR 3%N.
Definition exec_a : Entry := mkEntry EXEC 1%N.
Definition exec_b : Entry := mkEntry EXEC 2%N.
Definition link_a : Entry := mkEntry SYMLINK 11%N.
Definition link_bad : Entry := mkEntry SYMLINK 12%N.
Definition dir_1 : Entry := mkEntry DIR 21%N.
Definition dir_2 : Entry := mkEntry DIR 22%N.

Definition tree_1 : Tree := mkTree {[ b "x" := file_a ]}.
Definition tree_2 : Tree := mkTree {[ b "x" := file_b; b "y" := exec_a ]}.
Definition tree_top : Tree := mkTree {[ b "d" := dir_1; b "f" := file_a ]}.
Definition tree_top' : Tree := mkTree {[ b "d" := dir_2; b "g" := file_b ]}.

Record SampleCommit := mkCommit {
  sc_tree : N; sc_parents : list N; sc_message : bytes; sc_author : bytes
}.

Definition sample_tree_oid (t : @Tree N) : N :=
  Npos (encode ((fun e => (mode_code (mode e), oid e)) <$> entries t)).

Definition sample_tree (o : N) : @Tree N :=
  if (o =? 21)%N then tree_1
  else if (o =? 22)%N then tree_2
  else if (o =? sample_tree_oid tree_top)%N then tree_top
  else if (o =? sample_tree_oid tree_top')%N then tree_top'
  else Tree_empty.

Definition sample_commit_oid (c : SampleCommit) : N :=
  Npos (encode (sc_tree c, sc_parents c, sc_message c, sc_author c)).

Definition commit_0 : SampleCommit :=
  mkCommit (sample_tree_oid tree_top) [] (b "first") (b "A").
Definition commit_1 : SampleCommit :=
  mkCommit (sample_tree_oid tree_top') [sample_commit_oid commit_0] (b "second") (b "A").

#[global] Instance sample_odb : @Odb N := {|
  Blob_oid blob := Npos (encode (body blob));
  Tree_oid := sample_tree_oid;
  Entry_blob e :=
    mkBlob (if (oid e =? 1)%N then b "a" else if (oid e =? 2)%N then b "b"
            else if (oid e =? 3)%N then b "!" else []);
  Entry_tree e := sample_tree (oid e);
  Entry_symlink e :=
    if (oid e =? 11)%N then b "a" else if (oid e =? 12)%N then [xff] else [];
  Mode_str m :=
    match m with
    | REGULAR => "Mode.REGULAR" | EXEC => "Mode.EXEC" | DIR => "Mode.DIR"
    | SYMLINK => "Mode.SYMLINK" | GITLINK => "Mode.GITLINK"
    end;
  Oid_str o := pretty o;
  Commit := SampleCommit;
  Commit_oid := sample_commit_oid;
  Commit_parent c :=
    match sc_parents c with
    | [p] => if (p =? sample_commit_oid commit_0)%N then commit_0 else c
    | _ => c
    end;
  Commit_tree c := sample_tree (sc_tree c);
  Commit_message := sc_message;
  Commit_author := sc_author;
  Commit_create := mkCommit;
|}.

(** A toy merge tool: fails on the content ["!"], merges cleanly when one
    side is unchanged, and reports one conflict otherwise; and a toy
    interactive tool that writes both sides one after the other. *)
#[global] Instance sample_host : Host := {|
  Path := string;
  path_root := "/";
  path_div p name := if String.eqb p "/" then p +:+ name else p +:+ "/" +:+ name;
  path_str p := p;
  decode_replace name := string_of_list_byte name;
  set_iter := elements;
  set_iter_perm s := reflexivity _;
  git_merge_file _ _ _ current base other :=
    if bool_decide (other = b "!") then ((-1)%Z, [])
    else if bool_decide (current = base) then (0%Z, other)
    else if bool_decide (other = base) then (0%Z, current)
    else (1%Z, (current ++ other)%list);
  kdiff3 _ _ _ base current other := Some (current ++ other)%list;
|}.

Definition at_path (s : string) : @Path sample_host := s.

Definition labels : Labels := ("ours", "base", "theirs").

(** The merge of [tree_top] and [tree_top'] with an empty base: the two
    subtrees under "d" conflict on "x", which the user resolves. *)
Definition merged_top : @Tree N :=
  mkTree {[ b "d" := mkEntry DIR
                       (Tree_oid (mkTree {[ b "x" := mkEntry REGULAR
                                                      (Blob_oid (mkBlob (b "ab")));
                                            b "y" := exec_a ]}));
            b "f" := file_a; b "g" := file_b ]}.

Definition world (lines : list string) : World := mkWorld lines [].


Definition link_b : Entry := mkEntry SYMLINK 13%N.
Definition sub_1 : Entry := mkEntry GITLINK 31%N.
Definition sub_2 : Entry := mkEntry GITLINK 32%N.

(** Two more commits: one with the tree of [commit_1] and one with the
    tree of [commit_0], both without parents. *)
Definition commit_2 : SampleCommit :=
  mkCommit (sample_tree_oid tree_top') [] (b "third") (b "B").
Definition commit_3 : SampleCommit :=
  mkCommit (sample_tree_oid tree_top) [] (b "fourth") (b "B").

Definition as_commit (c : SampleCommit) : @Commit N sample_odb := c.

End Sample.

(** * Properties *)

(** ** Text *)

Example utf8_valid_ascii : utf8_valid [0x61; 0x2F; 0x62]%N = true.
Proof. reflexivity. Qed.

Example utf8_valid_two_bytes : utf8_valid [0xC3; 0xA9]%N = true.
Proof. reflexivity. Qed.

Example utf8_valid_four_bytes : utf8_valid [0xF0; 0x9F; 0x98; 0x80]%N = true.
Proof. reflexivity. Qed.

Example utf8_invalid_start : utf8_valid [0xFF]%N = false.
Proof. reflexivity. Qed.

Example utf8_invalid_overlong : utf8_valid [0xC0; 0x80]%N = false.
Proof. reflexivity. Qed.

Example utf8_invalid_surrogate : utf8_valid [0xED; 0xA0; 0x80]%N = false.
Proof. reflexivity. Qed.

Example utf8_invalid_truncated : utf8_valid [0xE2; 0x82]%N = false.
Proof. reflexivity. Qed.

Example utf8_invalid_too_large : utf8_valid [0xF4; 0x90; 0x80; 0x80]%N = false.
Proof. reflexivity. Qed.

Example lower_upper_y : lower "Y" = "y".
Proof. reflexivity. Qed.

Example lower_yes : lower "Yes" = "yes".
Proof. reflexivity. Qed.

(** The replies that [merge_blobs] takes as a confirmation. *)
Lemma lower_is_y (reply : string) : lower reply = "y" ↔ reply = "y" ∨ reply = "Y".
Proof.
  split; [|by intros [->| ->]].
  destruct reply as [|c [|c' s]]; [done| |done].
  cbn. intros [= Hc].
  destruct c as [[] [] [] [] [] [] [] []]; try discriminate Hc; auto.
Qed.

Section MergeProps.

Context {Oid : Type} `{!EqDecision Oid} `{!@Odb Oid} `{!Host}.

Implicit Types (path : Path) (labels : Labels) (w : World).
Implicit Types (current base other : option (@Entry Oid)).
Implicit Types (c b o : @Entry Oid) (name : bytes).

Ltac unfold_monad :=
  unfold mbind, M_bind, mret, M_ret, bind, ret, raise, lift, print, emit in *.

(** ** One step of the resolver and of the merger *)

Lemma conflict_prompt_eof {T} path descr labels (c o : T) cd od w :
  stdin w = [] →
  conflict_prompt path descr labels c cd o od w
  = (Raise EOFError, mkWorld [] (trace w ++ prompt_events path descr labels cd od None)).
Proof.
  intros Hin. unfold conflict_prompt, input, prompt_events. unfold_monad.
  cbn. rewrite Hin. by rewrite <- !app_assoc.
Qed.

Lemma conflict_prompt_reply {T} path descr labels (c o : T) cd od w reply rest :
  stdin w = reply :: rest →
  conflict_prompt path descr labels c cd o od w
  = (if String.eqb reply "1" then Ok c
     else if String.eqb reply "2" then Ok o
     else Raise (MergeConflict "aborted"),
     mkWorld rest (trace w ++ prompt_events path descr labels cd od (Some reply))).
Proof.
  intros Hin. unfold conflict_prompt, input, prompt_events. unfold_monad.
  cbn. rewrite Hin. rewrite <- !app_assoc. cbn.
  destruct (String.eqb reply "1"); [done|]. by destruct (String.eqb reply "2").
Qed.

Ltac enter_conflict fuel :=
  destruct fuel; cbn [merge_entries];
  rewrite ?(bool_decide_eq_false_2 (_ = _)) by (done || congruence).

(** ** The resolution rules of [merge_entries] *)

Lemma merge_entries_unchanged_current fuel path labels current base other w :
  base = current →
  merge_entries fuel path labels current base other w = (Ok other, w).
Proof.
  intros ->. destruct fuel; cbn [merge_entries];
    by rewrite bool_decide_eq_true_2.
Qed.

Lemma merge_entries_unchanged_other fuel path labels current base other w :
  base ≠ current → base = other →
  merge_entries fuel path labels current base other w = (Ok current, w).
Proof.
  intros Hne ->. destruct fuel; cbn [merge_entries];
    rewrite bool_decide_eq_false_2 by done; by rewrite bool_decide_eq_true_2.
Qed.

Lemma merge_entries_converged fuel path labels current base other w :
  base ≠ current → base ≠ other → current = other →
  merge_entries fuel path labels current base other w = (Ok current, w).
Proof.
  intros Hc Ho ->. destruct fuel; cbn [merge_entries];
    rewrite !bool_decide_eq_false_2 by done; by rewrite bool_decide_eq_true_2.
Qed.

(** C1.  [merge_entries] applies its three rules in order, the first that
    matches wins: when [base == current] the result is [other] (absent when
    [other] is absent); else when [base == other] the result is [current];
    else when [current == other] the result is [current].  In the three
    cases nothing is printed, read or run.  A run that raises, or that
    changes the world at all (a prompt, a merge tool, a new tree), is a run
    in which the three comparisons failed. *)
Theorem merge_entries_resolution_order fuel path labels current base other w :
  (base = current →
     merge_entries fuel path labels current base other w = (Ok other, w))
  ∧ (base ≠ current → base = other →
     merge_entries fuel path labels current base other w = (Ok current, w))
  ∧ (base ≠ current → base ≠ other → current = other →
     merge_entries fuel path labels current base other w = (Ok current, w))
  ∧ (∀ r w', merge_entries fuel path labels current base other w = (r, w') →
     (w' ≠ w ∨ ∃ e, r = Raise e) → conflicting current base other).
Proof.
  split_and!.
  - apply merge_entries_unchanged_current.
  - apply merge_entries_unchanged_other.
  - apply merge_entries_converged.
  - intros r w' Hrun Hobs. unfold conflicting.
    destruct (decide (base = current)) as [E1|N1].
    { rewrite merge_entries_unchanged_current in Hrun by done.
      injection Hrun as <- <-. destruct Hobs as [?|[e ?]]; done. }
    destruct (decide (base = other)) as [E2|N2].
    { rewrite merge_entries_unchanged_other in Hrun by done.
      injection Hrun as <- <-. destruct Hobs as [?|[e ?]]; done. }
    destruct (decide (current = other)) as [E3|N3]; [|done].
    rewrite merge_entries_converged in Hrun by done.
    injection Hrun as <- <-. destruct Hobs as [?|[e ?]]; done.
Qed.

(** ** Conflicts between a deletion and a modification *)

(** C7.  When [current] is absent, [base] and [other] are present and
    differ (so the three comparisons fail), [merge_entries] is one call of
    the resolver, for a "Deletion" conflict, whose first candidate is the
    absent entry, described as "deleted", and whose second is [other],
    described as "modified".  Answering 2 (modified) gives [other]'s entry
    and answering 1 (deleted) gives no entry. *)
Theorem merge_entries_deleted_in_current fuel path labels b o w :
  b ≠ o →
  merge_entries fuel path labels None (Some b) (Some o) w
  = conflict_prompt path "Deletion" labels None "deleted" (Some o) "modified" w
  ∧ (∀ rest, stdin w = "2" :: rest →
       merge_entries fuel path labels None (Some b) (Some o) w
       = (Ok (Some o),
          mkWorld rest (trace w ++ prompt_events path "Deletion" labels
                                     "deleted" "modified" (Some "2"))))
  ∧ (∀ rest, stdin w = "1" :: rest →
       merge_entries fuel path labels None (Some b) (Some o) w
       = (Ok None,
          mkWorld rest (trace w ++ prompt_events path "Deletion" labels
                                     "deleted" "modified" (Some "1")))).
Proof.
  intros Hne.
  assert (merge_entries fuel path labels None (Some b) (Some o) w
          = conflict_prompt path "Deletion" labels None "deleted" (Some o) "modified" w)
    as Hrun by (enter_conflict fuel; done).
  split_and!; [done|..]; intros rest Hin; rewrite Hrun;
    by rewrite (conflict_prompt_reply _ _ _ _ _ _ _ _ _ _ Hin).
Qed.

(** ** File modes *)

Lemma pick_file_mode_spec c base o :
  pick_file_mode c base o = spec_file_mode (mode <$> base) (mode c) (mode o).
Proof.
  unfold pick_file_mode, spec_file_mode, base_mode_is.
  destruct base as [b|]; cbn; [|done].
  repeat case_bool_decide; repeat case_decide; congruence.
Qed.

Lemma is_file_pick_file_mode c base o :
  is_file (mode c) = true → is_file (mode o) = true →
  is_file (pick_file_mode c base o) = true.
Proof.
  intros Hc Ho. unfold pick_file_mode.
  destruct (base_mode_is base (mode c)); [done|].
  by destruct (base_mode_is base (mode o)).
Qed.

Lemma merge_entries_file_modes fuel path labels c base o w :
  base ≠ Some c → base ≠ Some o →
  mode c ≠ mode o → is_file (mode c) = true → is_file (mode o) = true →
  merge_entries fuel path labels (Some c) base (Some o) w
  = merge_files path labels (pick_file_mode c base o) c base o w.
Proof.
  intros Hbc Hbo Hm Hc Ho.
  assert (Some c ≠ Some o) by congruence.
  enter_conflict fuel; rewrite Hc, Ho; cbn [andb];
    rewrite is_file_pick_file_mode by done; done.
Qed.


(** ** [merge_blobs], case by case *)

Lemma merge_blobs_run path labels (current : Blob) (base : option Blob) (other : Blob) w :
  merge_blobs path labels current base other w
  = let process := run_merge_file path labels current base other in
    let ran := ev_merge_file path labels current base other in
    if (process.1 =? 0)%Z then
      (Ok (mkBlob process.2), mkWorld (stdin w) (trace w ++ [ran]))
    else if (process.1 <? 0)%Z then
      (Raise (MergeConflict "git merge-file errored"),
       mkWorld (stdin w) (trace w ++ [ran]))
    else
      let fallback := ev_kdiff3 path labels current base other in
      match stdin w with
      | [] => (Raise EOFError,
               mkWorld [] (trace w ++ [ran; fallback; EvInput confirm_prompt None]))
      | reply :: rest =>
          (if negb (String.eqb (lower reply) "y") then
             Raise (MergeConflict "merging failed")
           else match run_kdiff3 path labels current base other with
                | Some merged => Ok (mkBlob merged)
                | None => Raise FileNotFoundError
                end,
           mkWorld rest (trace w ++ [ran; fallback; EvInput confirm_prompt (Some reply)]))
      end.
Proof.
  unfold merge_blobs, run_merge_file, ev_merge_file, ev_kdiff3, run_kdiff3,
    base_body, confirm_prompt, input.
  unfold_monad. cbn.
  destruct (_ =? 0)%Z; [done|]. destruct (_ <? 0)%Z; [done|].
  cbn. destruct (stdin w) as [|reply rest]; rewrite <- !app_assoc; cbn; [done|].
  destruct (negb _); [done|]. by destruct (kdiff3 _ _ _ _ _ _).
Qed.

(** [merge_blobs] never asks the resolver anything. *)
Lemma merge_blobs_no_resolver path labels (current : Blob) (base : option Blob)
    (other : Blob) w :
  ∃ events,
    trace (merge_blobs path labels current base other w).2 = trace w ++ events
    ∧ Forall (fun e => is_resolver_event e = false) events.
Proof.
  rewrite merge_blobs_run. cbn zeta.
  destruct (_ =? 0)%Z; [eexists; split; [done|]; by repeat constructor|].
  destruct (_ <? 0)%Z; [eexists; split; [done|]; by repeat constructor|].
  destruct (stdin w); (eexists; split; [done|]; by repeat constructor).
Qed.

Lemma merge_files_trace path labels m c base o w :
  trace (merge_files path labels m c base o w).2
  = trace (merge_blobs path labels (Entry_blob c) (base_blob base) (Entry_blob o) w).2.
Proof.
  unfold merge_files. unfold_monad. by destruct (merge_blobs _ _ _ _ _ _) as [[?|?] ?].
Qed.

(** C3.  When [current] and [other] are present with different modes that
    are both file modes, the entry that [merge_entries] returns has the
    mode of [other] when the base has the mode of [current], else that of
    [current] when the base has the mode of [other], else the executable
    one; the resolver is not asked (no event of the run is one of its
    prompts).  When none of the three comparisons settles the entry,
    [merge_entries] goes on to merge the two blobs and returns an entry of
    that mode for the merged blob. *)
Theorem merge_entries_file_mode_conflict fuel path labels c base o w :
  mode c ≠ mode o → is_file (mode c) = true → is_file (mode o) = true →
  let m := spec_file_mode (mode <$> base) (mode c) (mode o) in
  (∀ r w', merge_entries fuel path labels (Some c) base (Some o) w = (Ok r, w') →
     ∃ e, r = Some e ∧ mode e = m)
  ∧ (∃ events,
       trace (merge_entries fuel path labels (Some c) base (Some o) w).2
       = trace w ++ events
       ∧ Forall (fun e => is_resolver_event e = false) events)
  ∧ (base ≠ Some c → base ≠ Some o →
     merge_entries fuel path labels (Some c) base (Some o) w
     = (blob ← merge_blobs path labels (Entry_blob c) (base_blob base) (Entry_blob o);
        ret (Some (mkEntry m (Blob_oid blob)))) w).
Proof.
  intros Hm Hc Ho m. subst m. rewrite <- pick_file_mode_spec.
  destruct (decide (base = Some c)) as [->|Hbc].
  { rewrite merge_entries_unchanged_current by done. split_and!; [| |done].
    - intros r w' [= <- <-]. exists o. split; [done|].
      unfold pick_file_mode, base_mode_is. by rewrite bool_decide_eq_true_2.
    - exists []. by rewrite app_nil_r. }
  destruct (decide (base = Some o)) as [->|Hbo].
  { rewrite merge_entries_unchanged_other by done. split_and!; [| |done].
    - intros r w' [= <- <-]. exists c. split; [done|].
      unfold pick_file_mode, base_mode_is.
      rewrite bool_decide_eq_false_2 by done. by rewrite bool_decide_eq_true_2.
    - exists []. by rewrite app_nil_r. }
  rewrite merge_entries_file_modes by done. split_and!; [| |done].
  - intros r w'. unfold merge_files. unfold_monad.
    destruct (merge_blobs _ _ _ _ _ _) as [[blob|e] w1]; [|done].
    intros [= <- <-]. by eexists.
  - rewrite merge_files_trace. apply merge_blobs_no_resolver.
Qed.

(** C9.  When the base is absent and [current] and [other] are file
    entries with different modes, [merge_entries] takes the executable
    mode and merges the two blobs with no base content: the result is an
    executable entry for the merged blob. *)
Theorem merge_entries_file_mode_no_base fuel path labels c o w :
  mode c ≠ mode o → is_file (mode c) = true → is_file (mode o) = true →
  merge_entries fuel path labels (Some c) None (Some o) w
  = (blob ← merge_blobs path labels (Entry_blob c) None (Entry_blob o);
     ret (Some (mkEntry EXEC (Blob_oid blob)))) w.
Proof.
  intros Hm Hc Ho. by rewrite merge_entries_file_modes.
Qed.

(** C4.  In [merge_blobs], when the primary tool returns 0 the result is
    the blob of its output, and the run consists of that one tool run: no
    fallback tool, no question.  When it returns a positive code, the
    fallback tool is run and then the confirmation is asked: any reply
    whose lower case is not "y", the empty one included, raises
    [MergeConflict]; a reply "y" or "Y" gives the blob read from the merged
    file that the fallback tool wrote. *)
Theorem merge_blobs_protocol path labels (current : Blob) (base : option Blob)
    (other : Blob) w :
  let process := run_merge_file path labels current base other in
  let ran := ev_merge_file path labels current base other in
  let fallback := ev_kdiff3 path labels current base other in
  (process.1 = 0%Z →
     merge_blobs path labels current base other w
     = (Ok (mkBlob process.2), mkWorld (stdin w) (trace w ++ [ran])))
  ∧ (∀ reply rest, (0 < process.1)%Z → stdin w = reply :: rest →
     lower reply ≠ "y" →
     merge_blobs path labels current base other w
     = (Raise (MergeConflict "merging failed"),
        mkWorld rest (trace w ++ [ran; fallback; EvInput confirm_prompt (Some reply)])))
  ∧ (∀ reply rest merged, (0 < process.1)%Z → stdin w = reply :: rest →
     lower reply = "y" →
     run_kdiff3 path labels current base other = Some merged →
     merge_blobs path labels current base other w
     = (Ok (mkBlob merged),
        mkWorld rest (trace w ++ [ran; fallback; EvInput confirm_prompt (Some reply)]))).
Proof.
  intros process ran fallback. rewrite merge_blobs_run. cbn zeta.
  fold process ran fallback. split_and!.
  - intros ->. done.
  - intros reply rest Hpos Hin Hno.
    destruct (Z.eqb_spec process.1 0); [lia|].
    destruct (Z.ltb_spec process.1 0); [lia|].
    rewrite Hin. destruct (String.eqb_spec (lower reply) "y"); done.
  - intros reply rest merged Hpos Hin Hyes Hfile.
    destruct (Z.eqb_spec process.1 0); [lia|].
    destruct (Z.ltb_spec process.1 0); [lia|].
    rewrite Hin, Hyes, Hfile. done.
Qed.

(** C5, as the code has it.  When the primary tool returns a negative
    code, [merge_blobs] raises [MergeConflict] with the message
    "git merge-file errored": the class of the exception is the one raised
    on abandonment, only the message tells them apart.  The run consists of
    the primary tool's run alone: the fallback tool is not run and nothing
    is asked. *)
Theorem merge_blobs_tool_error path labels (current : Blob) (base : option Blob)
    (other : Blob) w :
  ((run_merge_file path labels current base other).1 < 0)%Z →
  ∃ e,
    merge_blobs path labels current base other w
    = (Raise e, mkWorld (stdin w)
                  (trace w ++ [ev_merge_file path labels current base other]))
    ∧ e = MergeConflict "git merge-file errored"
    ∧ is_MergeConflict e = true
    ∧ e ≠ MergeConflict "aborted" ∧ e ≠ MergeConflict "merging failed".
Proof.
  intros Hneg. eexists. split_and!; [|reflexivity|done..].
  rewrite merge_blobs_run. cbn zeta.
  destruct (Z.eqb_spec (run_merge_file path labels current base other).1 0); [lia|].
  destruct (Z.ltb_spec (run_merge_file path labels current base other).1 0); [done|lia].
Qed.

(** ** [rebase] *)

(** C8.  When the parent of the commit is the new parent (the same oid),
    [rebase] returns the commit itself and leaves the world as it was: no
    tree is merged or created and no commit is created, whatever the fuel. *)
Theorem rebase_same_parent fuel (commit parent : Commit) w :
  Commit_oid (Commit_parent commit) = Commit_oid parent →
  rebase fuel commit parent w = (Ok commit, w).
Proof.
  intros Heq. unfold rebase, Commit_eqb. by rewrite bool_decide_eq_true_2.
Qed.


(** ** The world only moves forward *)

Lemma world_le_refl w : world_le w w.
Proof. split; [by exists []|exists []; by rewrite app_nil_r]. Qed.

Lemma world_le_trans w1 w2 w3 : world_le w1 w2 → world_le w2 w3 → world_le w1 w3.
Proof.
  intros [[u1 Hu1] [e1 He1]] [[u2 Hu2] [e2 He2]]. split.
  - exists (u1 ++ u2). by rewrite Hu1, Hu2, app_assoc.
  - exists (e1 ++ e2). by rewrite He2, He1, app_assoc.
Qed.

Lemma monotone_ret {A} (a : A) : monotone (ret a).
Proof. intros w. apply world_le_refl. Qed.

Lemma monotone_raise {A} e : monotone (@raise _ _ A e).
Proof. intros w. apply world_le_refl. Qed.

Lemma monotone_lift {A} (r : Result A) : monotone (lift r).
Proof. intros w. apply world_le_refl. Qed.

Lemma monotone_bind {A B} (c : M A) (k : A → M B) :
  monotone c → (∀ a, monotone (k a)) → monotone (c ≫= k).
Proof.
  intros Hc Hk w. unfold_monad. specialize (Hc w).
  destruct (c w) as [[a|e] w1]; [|done].
  eapply world_le_trans; [exact Hc|apply Hk].
Qed.

Lemma monotone_emit e : monotone (emit e).
Proof. intros w. split; [by exists []|by exists [e]]. Qed.

Lemma monotone_input prompt : monotone (input prompt).
Proof.
  intros w. unfold input. destruct (stdin w) as [|l ls] eqn:Hin; cbn.
  - split; [exists []; by rewrite Hin|by eexists].
  - split; [exists [l]; by rewrite Hin|by eexists].
Qed.

Create HintDb merge_mono discriminated.
#[local] Hint Resolve monotone_ret monotone_raise monotone_lift monotone_emit
  monotone_input : merge_mono.

Ltac mono :=
  repeat first
    [ solve [eauto with merge_mono]
    | match goal with
      | |- monotone (_ ≫= _) => apply monotone_bind; [|intros ?]
      | |- monotone (match ?x with _ => _ end) => destruct x
      | |- monotone (if ?x then _ else _) => destruct x
      | |- monotone (let _ := _ in _) => cbn zeta
      end ].

Lemma monotone_conflict_prompt {T} path descr labels (c o : T) cd od :
  monotone (conflict_prompt path descr labels c cd o od).
Proof. unfold conflict_prompt, print. mono. Qed.

Lemma monotone_merge_blobs path labels (current : Blob) (base : option Blob)
    (other : Blob) :
  monotone (merge_blobs path labels current base other).
Proof. unfold merge_blobs. cbn zeta. mono. Qed.

Lemma monotone_for_each {A S} (xs : list A) (body : A → S → M S) acc :
  (∀ x acc, monotone (body x acc)) → monotone (for_each xs body acc).
Proof.
  intros Hbody. revert acc.
  induction xs as [|x xs IH]; intros acc; cbn [for_each]; mono.
Qed.

#[local] Hint Resolve monotone_conflict_prompt monotone_merge_blobs : merge_mono.

Lemma monotone_merge_named rec path labels (current base other : @Tree Oid) name es :
  (∀ p l x y z, monotone (rec p l x y z)) →
  monotone (merge_named rec path labels current base other name es).
Proof. intros Hrec. unfold merge_named. mono. Qed.

Lemma monotone_merge_trees_with rec path labels (current base other : @Tree Oid) :
  (∀ p l x y z, monotone (rec p l x y z)) →
  monotone (merge_trees_with rec path labels current base other).
Proof.
  intros Hrec. unfold merge_trees_with, Tree_create. cbn zeta.
  apply monotone_bind; [|intros ?; mono].
  apply monotone_for_each. intros name es. by apply monotone_merge_named.
Qed.

Lemma monotone_merge_entries fuel path labels current base other :
  monotone (merge_entries fuel path labels current base other).
Proof.
  revert path labels current base other.
  induction fuel as [|fuel IH]; intros path labels current base other;
    cbn [merge_entries]; mono;
    try (apply monotone_merge_trees_with; done).
Qed.

Lemma monotone_merge_trees fuel path labels (current base other : @Tree Oid) :
  monotone (merge_trees fuel path labels current base other).
Proof. apply monotone_merge_trees_with. intros. apply monotone_merge_entries. Qed.


(** ** The exceptions of a merge *)

Lemma raises_only_ret {A} P (a : A) : raises_only P (ret a).
Proof. intros w e. done. Qed.

Lemma raises_only_raise {A} (P : Exn → Prop) e : P e → raises_only P (@raise _ _ A e).
Proof. intros HP w e' [= <-]. done. Qed.

Lemma raises_only_bind {A B} P (c : M A) (k : A → M B) :
  raises_only P c → (∀ a, raises_only P (k a)) → raises_only P (c ≫= k).
Proof.
  intros Hc Hk w e. unfold_monad. specialize (Hc w).
  destruct (c w) as [[a|e'] w1]; cbn in *; [apply Hk|].
  intros [= <-]. by apply Hc.
Qed.

Lemma raises_only_emit P ev : raises_only P (emit ev).
Proof. intros w e. done. Qed.

Lemma raises_only_input (P : Exn → Prop) prompt :
  P EOFError → raises_only P (input prompt).
Proof. intros HP w e. unfold input. destruct (stdin w); cbn; [|done]. by intros [= <-]. Qed.

Lemma raises_only_decode (P : Exn → Prop) bs :
  P UnicodeDecodeError → raises_only P (lift (decode bs)).
Proof.
  intros HP w e. unfold lift, decode. destruct (utf8_valid _); cbn; [done|].
  by intros [= <-].
Qed.

Ltac exns :=
  repeat first
    [ match goal with
      | |- raises_only _ (_ ≫= _) => apply raises_only_bind; [|intros ?]
      | |- raises_only _ (ret _) => apply raises_only_ret
      | |- raises_only _ (emit _) => apply raises_only_emit
      | |- raises_only _ (print _) => apply raises_only_emit
      | |- raises_only _ (raise _) => apply raises_only_raise
      | |- raises_only _ (input _) => apply raises_only_input
      | |- raises_only _ (lift (decode _)) => apply raises_only_decode
      | |- raises_only _ (if bool_decide _ then _ else _) => case_bool_decide
      | |- raises_only _ (if ?x then _ else _) => destruct x eqn:?
      | |- raises_only _ (match ?x with _ => _ end) => destruct x
      | |- raises_only _ (let _ := _ in _) => cbn zeta
      end
    | assumption ].

Lemma raises_only_conflict_prompt {T} (P : Exn → Prop) path descr labels (c o : T) cd od :
  P EOFError → P (MergeConflict "aborted") →
  raises_only P (conflict_prompt path descr labels c cd o od).
Proof. intros ??. unfold conflict_prompt. exns. Qed.

Lemma raises_only_merge_blobs (P : Exn → Prop) path labels (current : Blob)
    (base : option Blob) (other : Blob) :
  P EOFError → P (MergeConflict "git merge-file errored") →
  P (MergeConflict "merging failed") → P FileNotFoundError →
  raises_only P (merge_blobs path labels current base other).
Proof. intros ????. unfold merge_blobs. exns. Qed.

Lemma raises_only_for_each {A S} P (xs : list A) (body : A → S → M S) acc :
  (∀ x acc, x ∈ xs → raises_only P (body x acc)) →
  raises_only P (for_each xs body acc).
Proof.
  revert acc. induction xs as [|x xs IH]; intros acc Hbody; cbn [for_each]; exns.
  - apply Hbody. by left.
  - apply IH. intros y acc' Hy. apply Hbody. by right.
Qed.

Lemma elem_of_set_iter name (s : gset bytes) : name ∈ set_iter s ↔ name ∈ s.
Proof. by rewrite (set_iter_perm s), elem_of_elements. Qed.

Lemma NoDup_set_iter (s : gset bytes) : NoDup (set_iter s).
Proof. rewrite (set_iter_perm s). apply NoDup_elements. Qed.

Lemma elem_of_names_of name (current base other : @Tree Oid) :
  name ∈ names_of current base other
  ↔ is_Some (entries current !! name) ∨ is_Some (entries base !! name)
    ∨ is_Some (entries other !! name).
Proof. unfold names_of. rewrite !elem_of_union, !elem_of_dom. done. Qed.

Lemma raises_only_merge_trees_with P rec path labels (current base other : @Tree Oid) :
  (∀ name, name ∈ names_of current base other →
     raises_only P (rec (path_div path (decode_replace name)) labels
                      (entries current !! name) (entries base !! name)
                      (entries other !! name))) →
  raises_only P (merge_trees_with rec path labels current base other).
Proof.
  intros Hrec. unfold merge_trees_with, Tree_create. cbn zeta. exns.
  apply raises_only_for_each. intros name es Hname. unfold merge_named. exns.
  apply Hrec. by apply elem_of_set_iter.
Qed.

Lemma merge_exn_cases (P : Exn → Prop) :
  (∀ e, merge_exn e → P e) →
  P (MergeConflict "aborted") ∧ P EOFError ∧ P (MergeConflict "git merge-file errored")
  ∧ P (MergeConflict "merging failed") ∧ P FileNotFoundError
  ∧ P UnicodeDecodeError ∧ P RecursionError.
Proof. intros HP. unfold merge_exn in HP. split_and!; apply HP; tauto. Qed.

(** Whatever [merge_entries] raises is one of the exceptions of a merge. *)
Lemma merge_entries_raises fuel path labels current base other :
  raises_only merge_exn (merge_entries fuel path labels current base other).
Proof.
  destruct (merge_exn_cases merge_exn) as (?&?&?&?&?&?&?); [done|].
  revert path labels current base other.
  induction fuel as [|fuel IH]; intros path labels current base other;
    cbn [merge_entries]; exns;
    try (apply raises_only_conflict_prompt; done);
    try (apply raises_only_merge_blobs; done);
    try (apply raises_only_merge_trees_with; intros; apply IH).
  all: match goal with Hm : is_file ?m = false |- _ => by destruct m end.
Qed.


(** ** [merge_trees]: the names of the merged tree *)

(** The loop of [merge_trees] over names that are all different: a name
    outside the list keeps what the dict had for it; a name of the list has
    what its own call of the entry merge returned (and keeps what the dict
    had when that is [None]), at some moment of the run. *)
Lemma for_each_merge_named rec path labels (current base other : @Tree Oid) xs :
  (∀ p l x y z, monotone (rec p l x y z)) →
  NoDup xs →
  ∀ acc w es w',
    for_each xs (merge_named rec path labels current base other) acc w = (Ok es, w') →
    world_le w w'
    ∧ ∀ name,
        (name ∉ xs → es !! name = acc !! name)
        ∧ (name ∈ xs →
           ∃ w1 w2 merged,
             world_le w w1 ∧ world_le w2 w'
             ∧ rec (path_div path (decode_replace name)) labels
                 (entries current !! name) (entries base !! name)
                 (entries other !! name) w1 = (Ok merged, w2)
             ∧ es !! name = match merged with
                            | Some e => Some e
                            | None => acc !! name
                            end).
Proof.
  intros Hmono. induction 1 as [|x xs Hx Hnd IH]; intros acc w es w' Hrun.
  - cbn in Hrun. injection Hrun as <- <-. split; [apply world_le_refl|].
    intros name. split; [done|]. by intros ?%elem_of_nil.
  - cbn [for_each] in Hrun. unfold_monad.
    destruct (merge_named rec path labels current base other x acc w)
      as [[acc1|e] w1] eqn:Hstep; [|done].
    apply IH in Hrun as [Hle Hrest].
    unfold merge_named in Hstep. unfold_monad.
    pose proof (Hmono (path_div path (decode_replace x)) labels
                  (entries current !! x) (entries base !! x) (entries other !! x) w)
      as Hle1.
    destruct (rec _ _ _ _ _ w) as [[merged|e] w0] eqn:Hrec; [|done].
    cbn in Hle1.
    assert (w0 = w1 ∧ acc1 = match merged with Some e => <[x:=e]> acc | None => acc end)
      as [-> ->] by (destruct merged; by injection Hstep as <- <-).
    split; [by eapply world_le_trans|].
    intros name. destruct (Hrest name) as [Hout Hin]. split.
    + intros Hnot. apply not_elem_of_cons in Hnot as [Hne Hnot].
      rewrite Hout by done. destruct merged; [by rewrite lookup_insert_ne|done].
    + intros [->|Hname]%elem_of_cons.
      * exists w, w1, merged. split_and!; [apply world_le_refl|done..|].
        rewrite Hout by done. destruct merged; [by rewrite lookup_insert_eq|done].
      * destruct (Hin Hname) as (w2 & w3 & m & Hl2 & Hl3 & Hcall & Hes).
        exists w2, w3, m. split_and!; [by eapply world_le_trans|done..|].
        rewrite Hes. destruct m; [done|].
        destruct merged; [|done]. rewrite lookup_insert_ne; [done|].
        intros ->. done.
Qed.

(** C2.  The tree that [merge_trees] returns has exactly the names of the
    three trees whose entry merge returned an entry: a name in none of the
    three trees is not in the result; a name in one of them was merged once
    during the run, by [merge_entries] on its three entries, and the result
    has for it what that call returned, so the name is left out exactly when
    the call returned no entry. *)
Theorem merge_trees_names fuel path labels (current base other : @Tree Oid) w t w' :
  merge_trees fuel path labels current base other w = (Ok t, w') →
  ∀ name,
    (entries current !! name = None → entries base !! name = None →
     entries other !! name = None → entries t !! name = None)
    ∧ (is_Some (entries current !! name) ∨ is_Some (entries base !! name)
       ∨ is_Some (entries other !! name) →
       ∃ w1 w2 merged,
         world_le w w1 ∧ world_le w2 w'
         ∧ merge_entries fuel (path_div path (decode_replace name)) labels
             (entries current !! name) (entries base !! name)
             (entries other !! name) w1 = (Ok merged, w2)
         ∧ entries t !! name = merged).
Proof.
  unfold merge_trees, merge_trees_with, Tree_create. cbn zeta. unfold_monad.
  intros Hrun name.
  destruct (for_each _ _ ∅ w) as [[es|e] w0] eqn:Hloop; [|done].
  injection Hrun as <- <-.
  apply for_each_merge_named in Hloop as [Hle Hnames];
    [|intros; apply monotone_merge_entries|apply NoDup_set_iter].
  destruct (Hnames name) as [Hout Hin]. cbn [entries]. split.
  - intros Hc Hb Ho. rewrite Hout; [done|].
    rewrite elem_of_set_iter, elem_of_names_of, Hc, Hb, Ho.
    intros [[? [=]]|[[? [=]]|[? [=]]]].
  - intros Hsome. destruct Hin as (w1 & w2 & merged & Hl1 & Hl2 & Hcall & Hes).
    { by rewrite elem_of_set_iter, elem_of_names_of. }
    exists w1, w2, merged. split_and!; [done| |done|].
    + eapply world_le_trans; [exact Hl2|]. split; [by exists []|by eexists].
    + rewrite Hes. by destruct merged.
Qed.

(** ** [merge_trees] on three times the same tree *)

Lemma for_each_same_tree fuel path labels (t : @Tree Oid) xs acc w :
  ∃ es,
    for_each xs (merge_named (merge_entries fuel) path labels t t t) acc w = (Ok es, w)
    ∧ ∀ name, es !! name = if decide (name ∈ xs)
                           then match entries t !! name with
                                | Some e => Some e
                                | None => acc !! name
                                end
                           else acc !! name.
Proof.
  revert acc. induction xs as [|x xs IH]; intros acc.
  - exists acc. split; [done|]. intros name. rewrite decide_False; [done|].
    apply not_elem_of_nil.
  - cbn [for_each]. unfold_monad. unfold merge_named at 1. unfold_monad.
    rewrite merge_entries_unchanged_current by done.
    set (acc1 := match entries t !! x with Some e => <[x:=e]> acc | None => acc end).
    destruct (IH acc1) as (es & Hrun & Hes). exists es. split.
    { subst acc1. by destruct (entries t !! x). }
    intros name. rewrite Hes. subst acc1.
    destruct (decide (name = x)) as [->|Hne].
    + rewrite (decide_True (P := x ∈ x :: xs)) by left.
      destruct (entries t !! x) eqn:Hx; [rewrite lookup_insert_eq|]; by case_decide.
    + assert (match entries t !! x with Some e => <[x:=e]> acc | None => acc end
              !! name = acc !! name) as ->.
      { destruct (entries t !! x); [by rewrite lookup_insert_ne|done]. }
      destruct (decide (name ∈ xs)) as [Hin|Hin].
      * by rewrite decide_True by (by right).
      * rewrite decide_False; [done|]. by intros [?|?]%elem_of_cons.
Qed.

(** C6.  [merge_trees] of a tree with itself and itself returns that tree
    (the same entries, hence the same oid).  The run consists of the
    creation of that tree alone: the resolver and the content merger are
    not invoked, nothing is read. *)
Theorem merge_trees_same fuel path labels (t : @Tree Oid) w :
  merge_trees fuel path labels t t t w
  = (Ok t, mkWorld (stdin w) (trace w ++ [EvTreeCreate t]))
  ∧ (∀ t' w', merge_trees fuel path labels t t t w = (Ok t', w') →
       Tree_oid t' = Tree_oid t
       ∧ ∃ events, trace w' = trace w ++ events
           ∧ Forall (fun e => is_resolver_event e = false
                              ∧ is_merger_event e = false) events).
Proof.
  assert (merge_trees fuel path labels t t t w
          = (Ok t, mkWorld (stdin w) (trace w ++ [EvTreeCreate t]))) as Hrun.
  { unfold merge_trees, merge_trees_with, Tree_create. cbn zeta. unfold_monad.
    destruct (for_each_same_tree fuel path labels t
                (set_iter (names_of t t t)) ∅ w) as (es & -> & Hes).
    assert (es = entries t) as ->; [|by destruct t].
    apply map_eq. intros name. rewrite Hes, lookup_empty.
    case_decide as Hin; [by destruct (entries t !! name)|].
    rewrite elem_of_set_iter, elem_of_names_of in Hin.
    destruct (entries t !! name) eqn:Hl; [|done]. destruct Hin. by left. }
  split; [done|]. intros t' w'. rewrite Hrun. intros [= <- <-].
  split; [done|]. exists [EvTreeCreate t]. split; [done|]. by repeat constructor.
Qed.


(** ** Enough fuel *)

Lemma shallow_entry_fits fuel (t : @Tree Oid) name :
  shallow fuel t → entry_fits fuel (entries t !! name).
Proof.
  intros Hsh c Hc Hdir. destruct fuel; cbn in Hsh; by apply (Hsh name c).
Qed.

Lemma merge_entries_enough_fuel fuel path labels current base other :
  entry_fits fuel current →
  raises_only (fun e => e ≠ RecursionError)
    (merge_entries fuel path labels current base other).
Proof.
  revert path labels current base other.
  induction fuel as [|fuel IH]; intros path labels current base other Hfit;
    cbn [merge_entries]; exns;
    try (apply raises_only_conflict_prompt; done);
    try (apply raises_only_merge_blobs; done);
    try done.
  all: try match goal with
           | Hm : is_file (pick_file_mode _ _ _) = false,
             Hf : is_file _ && is_file _ = true |- _ =>
               apply andb_prop in Hf as [? ?];
               by rewrite is_file_pick_file_mode in Hm
           end.
  - exfalso. by apply (Hfit _ eq_refl).
  - apply raises_only_merge_trees_with. intros name _. apply IH.
    apply shallow_entry_fits. by apply (Hfit _ eq_refl).
Qed.

(** X21.  With as much fuel as the directories of [current] nest deep,
    [merge_trees] does not hit the recursion limit: it returns a tree or
    raises one of the other exceptions of a merge. *)
Theorem merge_trees_enough_fuel fuel path labels (current base other : @Tree Oid) w :
  shallow fuel current →
  (∃ t, (merge_trees fuel path labels current base other w).1 = Ok t)
  ∨ (∃ e, (merge_trees fuel path labels current base other w).1 = Raise e
          ∧ merge_exn e ∧ e ≠ RecursionError).
Proof.
  intros Hsh.
  destruct (merge_trees fuel path labels current base other w).1 as [t|e] eqn:Hrun;
    [left; by eexists|right].
  exists e. split_and!; [done|..].
  - eapply (raises_only_merge_trees_with merge_exn); [|exact Hrun].
    intros. apply merge_entries_raises.
  - eapply (raises_only_merge_trees_with (fun e => e ≠ RecursionError)); [|exact Hrun].
    intros name _. apply merge_entries_enough_fuel. by apply shallow_entry_fits.
Qed.

(** ** The last branch of [merge_entries] *)

(** X20.  [merge_entries] never raises [ValueError]: the mode it settles on is a
    file mode, [DIR], [SYMLINK] or [GITLINK], so one of the four branches
    before the last is taken. *)
Theorem merge_entries_mode_known fuel path labels current base other w msg :
  (merge_entries fuel path labels current base other w).1 ≠ Raise (ValueError msg).
Proof.
  intros Hrun. apply merge_entries_raises in Hrun.
  destruct Hrun as [?|[?|[?|[?|[?|[?|?]]]]]]; done.
Qed.

(** A conflict between two symlinks reaches the resolver only when both
    targets decode: [current]'s target is decoded first, and a target that
    is not UTF-8 raises [UnicodeDecodeError] before anything is printed or
    asked. *)
Lemma symlink_target_decoded_before_prompt fuel path labels c base o w :
  base ≠ Some c → base ≠ Some o → c ≠ o →
  mode c = SYMLINK → mode o = SYMLINK →
  utf8_valid (map Byte.to_N (Entry_symlink c)) = false →
  merge_entries fuel path labels (Some c) base (Some o) w = (Raise UnicodeDecodeError, w).
Proof.
  intros Hbc Hbo Hco Hc Ho Hbad.
  assert (Some c ≠ Some o) by congruence.
  enter_conflict fuel; rewrite Hc, Ho; cbn;
    unfold_monad; unfold decode; by rewrite Hbad.
Qed.


(** A tree merge that returns leaves a mark: the creation of the merged
    tree is the last event of the trace. *)
Lemma merge_trees_leaves_trace fuel path labels (current base other : @Tree Oid) w t w' :
  merge_trees fuel path labels current base other w = (Ok t, w') →
  ∃ events, trace w' = trace w ++ events ++ [EvTreeCreate t].
Proof.
  unfold merge_trees, merge_trees_with, Tree_create. cbn zeta. unfold_monad.
  intros Hrun.
  destruct (monotone_for_each (set_iter (names_of current base other))
              (merge_named (merge_entries fuel) path labels current base other) ∅
              (fun name es => monotone_merge_named _ path labels current base other
                                name es (monotone_merge_entries fuel)) w)
    as [_ [events Hev]].
  destruct (for_each _ _ ∅ w) as [[es|e] w0] eqn:Hloop; [|done].
  injection Hrun as <- <-. cbn.
  cbn in Hev. exists events. by rewrite Hev, app_assoc.
Qed.


(** * Further properties *)

(** ** The resolver *)

(** X1.  [conflict_prompt] prints its three lines and reads one line: the
    reply "1" returns the first candidate, "2" the second, and any other
    reply raises [MergeConflict]; with no line left to read it raises
    [EOFError].  In every case the three lines have been printed and at
    most one line has been consumed. *)
Theorem conflict_prompt_replies {T} path descr labels (c o : T) cd od w :
  (stdin w = [] →
     conflict_prompt path descr labels c cd o od w
     = (Raise EOFError, mkWorld [] (trace w ++ prompt_events path descr labels cd od None)))
  ∧ (∀ reply rest, stdin w = reply :: rest →
     ∃ r, conflict_prompt path descr labels c cd o od w
          = (r, mkWorld rest (trace w ++ prompt_events path descr labels cd od (Some reply)))
       ∧ (reply = "1" → r = Ok c)
       ∧ (reply = "2" → r = Ok o)
       ∧ (reply ≠ "1" → reply ≠ "2" → r = Raise (MergeConflict "aborted"))).
Proof.
  split; [apply conflict_prompt_eof|].
  intros reply rest Hin. eexists. split; [by apply conflict_prompt_reply|].
  destruct (String.eqb_spec reply "1") as [->|H1]; [by split_and!|].
  destruct (String.eqb_spec reply "2") as [->|H2]; by split_and!.
Qed.

(** X2.  The second candidate of [conflict_prompt] is shown under
    [labels[1]], the label of the base: the third label has no part in
    what is printed or returned. *)
Theorem conflict_prompt_third_label {T} path descr (l0 l1 l2 l2' : string)
    (c o : T) cd od w :
  conflict_prompt path descr (l0, l1, l2) c cd o od w
  = conflict_prompt path descr (l0, l1, l2') c cd o od w
  ∧ ∃ events,
      trace (conflict_prompt path descr (l0, l1, l2) c cd o od w).2
      = trace w ++ EvPrint (descr +:+ " conflict for '" +:+ path_str path +:+ "'")
                :: EvPrint ("  (1) " +:+ l0 +:+ ": " +:+ cd)
                :: EvPrint ("  (2) " +:+ l1 +:+ ": " +:+ od) :: events.
Proof.
  split; [done|].
  destruct (stdin w) as [|reply rest] eqn:Hin.
  - rewrite conflict_prompt_eof by done. by eexists.
  - rewrite (conflict_prompt_reply _ _ _ _ _ _ _ _ _ _ Hin). by eexists.
Qed.

(** ** The conflicts of [merge_entries] *)

(** X3.  When [other] is absent and [current] and [base] are present and
    differ, [merge_entries] is one call of the resolver for a "Deletion"
    conflict with [current], described as "modified", first and the absent
    entry, described as "deleted", second: the reply 1 keeps [current] and
    the reply 2 deletes the entry. *)
Theorem merge_entries_deleted_in_other fuel path labels c b w :
  b ≠ c →
  merge_entries fuel path labels (Some c) (Some b) None w
  = conflict_prompt path "Deletion" labels (Some c) "modified" None "deleted" w
  ∧ (∀ rest, stdin w = "1" :: rest →
       merge_entries fuel path labels (Some c) (Some b) None w
       = (Ok (Some c),
          mkWorld rest (trace w ++ prompt_events path "Deletion" labels
                                     "modified" "deleted" (Some "1"))))
  ∧ (∀ rest, stdin w = "2" :: rest →
       merge_entries fuel path labels (Some c) (Some b) None w
       = (Ok None,
          mkWorld rest (trace w ++ prompt_events path "Deletion" labels
                                     "modified" "deleted" (Some "2")))).
Proof.
  intros Hne.
  assert (merge_entries fuel path labels (Some c) (Some b) None w
          = conflict_prompt path "Deletion" labels (Some c) "modified" None "deleted" w)
    as Hrun by (enter_conflict fuel; done).
  split_and!; [done|..]; intros rest Hin; rewrite Hrun;
    by rewrite (conflict_prompt_reply _ _ _ _ _ _ _ _ _ _ Hin).
Qed.

(** X4.  When [current] and [other] are present with different modes that
    are not both file modes (and no comparison settles the entry),
    [merge_entries] is one call of the resolver for an "Entry type"
    conflict between the two entries, described by their modes: neither
    merge tool is run and no tree is merged, whatever the base. *)
Theorem merge_entries_type_conflict fuel path labels c base o w :
  base ≠ Some c → base ≠ Some o →
  mode c ≠ mode o → is_file (mode c) && is_file (mode o) = false →
  merge_entries fuel path labels (Some c) base (Some o) w
  = conflict_prompt path "Entry type" labels
      (Some c) (Mode_str (mode c)) (Some o) (Mode_str (mode o)) w
  ∧ (∀ rest, stdin w = "1" :: rest →
       (merge_entries fuel path labels (Some c) base (Some o) w).1 = Ok (Some c))
  ∧ (∀ rest, stdin w = "2" :: rest →
       (merge_entries fuel path labels (Some c) base (Some o) w).1 = Ok (Some o)).
Proof.
  intros Hbc Hbo Hm Hfiles.
  assert (Some c ≠ Some o) by congruence.
  assert (merge_entries fuel path labels (Some c) base (Some o) w
          = conflict_prompt path "Entry type" labels
              (Some c) (Mode_str (mode c)) (Some o) (Mode_str (mode o)) w)
    as Hrun by (enter_conflict fuel; by rewrite Hfiles).
  split_and!; [done|..]; intros rest Hin; rewrite Hrun;
    by rewrite (conflict_prompt_reply _ _ _ _ _ _ _ _ _ _ Hin).
Qed.


(** X5.  Two different file entries of the same mode (that no comparison
    settles) are merged by [merge_blobs] and the result keeps their mode.
    The base content is the base blob only when the base is itself a file:
    with no base, or a base that is a directory, a symlink or a gitlink,
    the blobs are merged with no common ancestor. *)
Theorem merge_entries_same_file_mode fuel path labels c base o w :
  base ≠ Some c → base ≠ Some o → c ≠ o →
  mode c = mode o → is_file (mode c) = true →
  merge_entries fuel path labels (Some c) base (Some o) w
  = (blob ← merge_blobs path labels (Entry_blob c) (base_blob base) (Entry_blob o);
     ret (Some (mkEntry (mode c) (Blob_oid blob)))) w
  ∧ (∀ b, base = Some b → is_file (mode b) = true → base_blob base = Some (Entry_blob b))
  ∧ (∀ b, base = Some b → is_file (mode b) = false → base_blob base = None)
  ∧ (base = None → base_blob base = None).
Proof.
  intros Hbc Hbo Hco Hm Hc.
  assert (Some c ≠ Some o) by congruence.
  split_and!.
  - enter_conflict fuel; rewrite bool_decide_eq_true_2 by done; by rewrite Hc.
  - intros b -> Hb. cbn. by rewrite Hb.
  - intros b -> Hb. cbn. by rewrite Hb.
  - by intros ->.
Qed.

(** X6.  Two different directory entries (that no comparison settles) are
    merged by a nested [merge_trees] on their trees, under the same path,
    and the result is a directory entry for the merged tree.  The base tree
    is the tree of the base when the base is a directory and the empty tree
    otherwise.  A failure of the nested merge is the failure of the entry
    merge.  With no fuel left the nested merge is not started. *)
Theorem merge_entries_directories fuel path labels c base o w :
  base ≠ Some c → base ≠ Some o → c ≠ o →
  mode c = DIR → mode o = DIR →
  merge_entries (S fuel) path labels (Some c) base (Some o) w
  = match merge_trees fuel path labels (Entry_tree c) (base_tree base) (Entry_tree o) w with
    | (Ok tree, w') => (Ok (Some (mkEntry DIR (Tree_oid tree))), w')
    | (Raise e, w') => (Raise e, w')
    end
  ∧ merge_entries 0 path labels (Some c) base (Some o) w = (Raise RecursionError, w).
Proof.
  intros Hbc Hbo Hco Hc Ho.
  assert (Some c ≠ Some o) by congruence.
  split.
  - cbn [merge_entries]. rewrite !(bool_decide_eq_false_2 (_ = _)) by done.
    rewrite Hc, Ho. cbn [is_file]. rewrite !bool_decide_eq_true_2 by done.
    unfold_monad. unfold merge_trees, base_tree.
    by destruct (merge_trees_with _ _ _ _ _ _ _) as [[?|?] ?].
  - cbn [merge_entries]. rewrite !(bool_decide_eq_false_2 (_ = _)) by done.
    rewrite Hc, Ho. cbn [is_file]. by rewrite !bool_decide_eq_true_2.
Qed.

(** X7.  Two different symlink entries (that no comparison settles) go to
    the resolver as a "Symlink" conflict described by the two decoded
    targets.  The targets are decoded first, [current]'s before [other]'s:
    when either is not UTF-8, [merge_entries] raises [UnicodeDecodeError]
    and has printed and read nothing. *)
Theorem merge_entries_symlinks fuel path labels c base o w :
  base ≠ Some c → base ≠ Some o → c ≠ o →
  mode c = SYMLINK → mode o = SYMLINK →
  merge_entries fuel path labels (Some c) base (Some o) w
  = match decode (Entry_symlink c), decode (Entry_symlink o) with
    | Ok current_descr, Ok other_descr =>
        conflict_prompt path "Symlink" labels (Some c) current_descr (Some o) other_descr w
    | Raise e, _ => (Raise e, w)
    | Ok _, Raise e => (Raise e, w)
    end
  ∧ (utf8_valid (map Byte.to_N (Entry_symlink c)) = false
     ∨ utf8_valid (map Byte.to_N (Entry_symlink o)) = false →
     merge_entries fuel path labels (Some c) base (Some o) w = (Raise UnicodeDecodeError, w)).
Proof.
  intros Hbc Hbo Hco Hc Ho.
  assert (Some c ≠ Some o) by congruence.
  assert (merge_entries fuel path labels (Some c) base (Some o) w
          = match decode (Entry_symlink c), decode (Entry_symlink o) with
            | Ok current_descr, Ok other_descr =>
                conflict_prompt path "Symlink" labels (Some c) current_descr
                  (Some o) other_descr w
            | Raise e, _ => (Raise e, w)
            | Ok _, Raise e => (Raise e, w)
            end) as Hrun.
  { enter_conflict fuel; rewrite Hc, Ho; cbn; unfold_monad;
      destruct (decode (Entry_symlink c)); [|done|..]; try done;
      by destruct (decode (Entry_symlink o)). }
  split; [done|]. rewrite Hrun. unfold decode.
  intros [Hbad|Hbad]; rewrite Hbad; [done|].
  by destruct (utf8_valid (map Byte.to_N (Entry_symlink c))).
Qed.

(** X8.  Two different gitlink entries (that no comparison settles) go to
    the resolver as a "Submodule" conflict described by the two oids: the
    reply 1 keeps [current]'s entry and the reply 2 takes [other]'s. *)
Theorem merge_entries_gitlinks fuel path labels c base o w :
  base ≠ Some c → base ≠ Some o → c ≠ o →
  mode c = GITLINK → mode o = GITLINK →
  merge_entries fuel path labels (Some c) base (Some o) w
  = conflict_prompt path "Submodule" labels
      (Some c) (Oid_str (oid c)) (Some o) (Oid_str (oid o)) w
  ∧ (∀ rest, stdin w = "1" :: rest →
       (merge_entries fuel path labels (Some c) base (Some o) w).1 = Ok (Some c))
  ∧ (∀ rest, stdin w = "2" :: rest →
       (merge_entries fuel path labels (Some c) base (Some o) w).1 = Ok (Some o)).
Proof.
  intros Hbc Hbo Hco Hc Ho.
  assert (Some c ≠ Some o) by congruence.
  assert (merge_entries fuel path labels (Some c) base (Some o) w
          = conflict_prompt path "Submodule" labels
              (Some c) (Oid_str (oid c)) (Some o) (Oid_str (oid o)) w)
    as Hrun by (enter_conflict fuel; by rewrite Hc, Ho).
  split_and!; [done|..]; intros rest Hin; rewrite Hrun;
    by rewrite (conflict_prompt_reply _ _ _ _ _ _ _ _ _ _ Hin).
Qed.

(** ** Settled entries *)

Lemma merge_entries_settled fuel path labels current base other w :
  settled current base other →
  merge_entries fuel path labels current base other w
  = (Ok (resolve current base other), w).
Proof.
  intros Hs. unfold resolve. case_decide as Hbc.
  - by apply merge_entries_unchanged_current.
  - destruct (decide (base = other)) as [Hbo|Hbo].
    + by apply merge_entries_unchanged_other.
    + apply merge_entries_converged; [done..|]. by destruct Hs as [?|[?|?]].
Qed.

Lemma resolve_sym current base other :
  settled current base other →
  resolve current base other = resolve other base current.
Proof.
  intros Hs. unfold resolve. repeat case_decide; destruct Hs as [?|[?|?]]; congruence.
Qed.

(** X9.  On a settled entry (one of the three comparisons holds) the entry
    merge does not depend on which side is called [current] and which
    [other]: swapping them gives the same result, and the world is left
    as it was. *)
Theorem merge_entries_settled_sym fuel path labels current base other w :
  settled current base other →
  merge_entries fuel path labels current base other w
  = merge_entries fuel path labels other base current w
  ∧ (merge_entries fuel path labels current base other w).2 = w.
Proof.
  intros Hs.
  assert (settled other base current) as Hs' by (destruct Hs as [?|[?|?]]; red; auto).
  rewrite !merge_entries_settled by done. by rewrite resolve_sym.
Qed.


(** ** Trees whose entries are all settled *)

(** The loop of [merge_trees] when the entry merge of every name of the
    list returns [f name] and leaves the world alone. *)
Lemma for_each_pure rec path labels (current base other : @Tree Oid)
    (f : bytes → option (@Entry Oid)) xs acc w :
  (∀ name w, name ∈ xs →
     rec (path_div path (decode_replace name)) labels (entries current !! name)
       (entries base !! name) (entries other !! name) w = (Ok (f name), w)) →
  ∃ es,
    for_each xs (merge_named rec path labels current base other) acc w = (Ok es, w)
    ∧ ∀ name, es !! name = if decide (name ∈ xs)
                           then match f name with
                                | Some e => Some e
                                | None => acc !! name
                                end
                           else acc !! name.
Proof.
  revert acc. induction xs as [|x xs IH]; intros acc Hrec.
  - exists acc. split; [done|]. intros name. rewrite decide_False; [done|].
    apply not_elem_of_nil.
  - cbn [for_each]. unfold_monad. unfold merge_named at 1. unfold_monad.
    rewrite Hrec by left.
    set (acc1 := match f x with Some e => <[x:=e]> acc | None => acc end).
    destruct (IH acc1) as (es & Hrun & Hes).
    { intros name w' Hname. apply Hrec. by right. }
    exists es. split.
    { subst acc1. by destruct (f x). }
    intros name. rewrite Hes. subst acc1.
    destruct (decide (name = x)) as [->|Hne].
    + rewrite (decide_True (P := x ∈ x :: xs)) by left.
      destruct (f x) eqn:Hx; [rewrite lookup_insert_eq|]; by case_decide.
    + assert (match f x with Some e => <[x:=e]> acc | None => acc end
              !! name = acc !! name) as ->.
      { destruct (f x); [by rewrite lookup_insert_ne|done]. }
      destruct (decide (name ∈ xs)) as [Hin|Hin].
      * by rewrite decide_True by (by right).
      * rewrite decide_False; [done|]. by intros [?|?]%elem_of_cons.
Qed.

Lemma merge_trees_settled_run fuel path labels (current base other : @Tree Oid) w :
  (∀ name, settled (entries current !! name) (entries base !! name)
             (entries other !! name)) →
  ∃ t,
    merge_trees fuel path labels current base other w
    = (Ok t, mkWorld (stdin w) (trace w ++ [EvTreeCreate t]))
    ∧ ∀ name, entries t !! name
              = resolve (entries current !! name) (entries base !! name)
                  (entries other !! name).
Proof.
  intros Hs. unfold merge_trees, merge_trees_with, Tree_create. cbn zeta. unfold_monad.
  destruct (for_each_pure (merge_entries fuel) path labels current base other
              (fun name => resolve (entries current !! name) (entries base !! name)
                             (entries other !! name))
              (set_iter (names_of current base other)) ∅ w) as (es & -> & Hes).
  { intros name w' _. by apply merge_entries_settled. }
  exists (mkTree es). split; [done|]. intros name. cbn [entries].
  rewrite Hes, lookup_empty. case_decide as Hin; [by destruct (resolve _ _ _)|].
  rewrite elem_of_set_iter, elem_of_names_of in Hin.
  destruct (entries current !! name) eqn:Hc; [destruct Hin; by left|].
  destruct (entries base !! name) eqn:Hb; [destruct Hin; right; by left|].
  destruct (entries other !! name) eqn:Ho; [destruct Hin; right; by right|].
  done.
Qed.

Lemma tree_eq (t t' : @Tree Oid) :
  (∀ name, entries t !! name = entries t' !! name) → t = t'.
Proof. destruct t, t'. cbn. intros Heq. f_equal. by apply map_eq. Qed.

(** X10.  When every name is settled (for each, one of the three
    comparisons holds), [merge_trees] asks nothing and runs no tool, in
    whatever order the names are visited: it returns a tree that has, for
    every name, what the three rules give ([other]'s entry where [current]
    is unchanged from the base, [current]'s otherwise), and the creation of
    that tree is the only event. *)
Theorem merge_trees_settled fuel path labels (current base other : @Tree Oid) w :
  (∀ name, settled (entries current !! name) (entries base !! name)
             (entries other !! name)) →
  ∃ t,
    merge_trees fuel path labels current base other w
    = (Ok t, mkWorld (stdin w) (trace w ++ [EvTreeCreate t]))
    ∧ (∀ name, entries base !! name = entries current !! name →
               entries t !! name = entries other !! name)
    ∧ (∀ name, entries base !! name ≠ entries current !! name →
               entries t !! name = entries current !! name).
Proof.
  intros Hs. destruct (merge_trees_settled_run fuel path labels current base other w Hs)
    as (t & Hrun & Ht).
  exists t. split_and!; [done|..]; intros name Hb; rewrite Ht; unfold resolve;
    by case_decide.
Qed.

(** X11.  The three ways a whole tree is settled.  When [current] is the
    base tree, the merge is [other]; when [other] is the base tree, the
    merge is [current]; when [current] and [other] are the same tree, the
    merge is that tree, whatever the base.  Nothing is asked and no tool is
    run: the one event is the creation of the returned tree. *)
Theorem merge_trees_unchanged_side fuel path labels (t base other current : @Tree Oid) w :
  merge_trees fuel path labels base base other w
  = (Ok other, mkWorld (stdin w) (trace w ++ [EvTreeCreate other]))
  ∧ merge_trees fuel path labels current base base w
    = (Ok current, mkWorld (stdin w) (trace w ++ [EvTreeCreate current]))
  ∧ merge_trees fuel path labels t base t w
    = (Ok t, mkWorld (stdin w) (trace w ++ [EvTreeCreate t])).
Proof.
  split_and!.
  - destruct (merge_trees_settled_run fuel path labels base base other w)
      as (t' & -> & Ht); [intros; by left|].
    assert (t' = other) as ->; [|done].
    apply tree_eq. intros name. rewrite Ht. unfold resolve. by rewrite decide_True.
  - destruct (merge_trees_settled_run fuel path labels current base base w)
      as (t' & -> & Ht); [intros; right; by left|].
    assert (t' = current) as ->; [|done].
    apply tree_eq. intros name. rewrite Ht. unfold resolve. by case_decide.
  - destruct (merge_trees_settled_run fuel path labels t base t w)
      as (t' & -> & Ht); [intros; right; by right|].
    assert (t' = t) as ->; [|done].
    apply tree_eq. intros name. rewrite Ht. unfold resolve. by case_decide.
Qed.

(** X12.  When every name is settled, the merge does not depend on which
    tree is called [current] and which [other]: swapping them gives the
    same tree and the same world. *)
Theorem merge_trees_settled_sym fuel path labels (current base other : @Tree Oid) w :
  (∀ name, settled (entries current !! name) (entries base !! name)
             (entries other !! name)) →
  merge_trees fuel path labels current base other w
  = merge_trees fuel path labels other base current w.
Proof.
  intros Hs.
  assert (∀ name, settled (entries other !! name) (entries base !! name)
                    (entries current !! name)) as Hs'.
  { intros name. destruct (Hs name) as [?|[?|?]]; red; auto. }
  destruct (merge_trees_settled_run fuel path labels current base other w Hs)
    as (t & -> & Ht).
  destruct (merge_trees_settled_run fuel path labels other base current w Hs')
    as (t' & -> & Ht').
  assert (t = t') as ->; [|done].
  apply tree_eq. intros name. rewrite Ht, Ht'. by apply resolve_sym.
Qed.

(** ** A merge that fails *)

Lemma for_each_raises rec path labels (current base other : @Tree Oid) xs :
  (∀ p l x y z, monotone (rec p l x y z)) →
  ∀ acc w e w',
    for_each xs (merge_named rec path labels current base other) acc w = (Raise e, w') →
    ∃ name w1,
      name ∈ xs ∧ world_le w w1
      ∧ rec (path_div path (decode_replace name)) labels (entries current !! name)
          (entries base !! name) (entries other !! name) w1 = (Raise e, w').
Proof.
  intros Hmono. induction xs as [|x xs IH]; intros acc w e w' Hrun; [done|].
  cbn [for_each] in Hrun. unfold_monad.
  destruct (merge_named rec path labels current base other x acc w)
    as [[acc1|e1] w1] eqn:Hstep.
  - apply IH in Hrun as (name & w2 & Hin & Hle & Hcall).
    exists name, w2. split_and!; [by right| |done].
    eapply world_le_trans; [|exact Hle].
    pose proof (monotone_merge_named rec path labels current base other x acc Hmono w)
      as Hle1. by rewrite Hstep in Hle1.
  - injection Hrun as <- <-. unfold merge_named in Hstep. unfold_monad.
    destruct (rec _ _ _ _ _ w) as [[[m|]|e2] w2] eqn:Hcall; try done.
    injection Hstep as <- <-. exists x, w. split_and!; [by left|apply world_le_refl|done].
Qed.

(** X13.  A failure of [merge_trees] is the failure of the entry merge of
    one of its names, and [merge_trees] stops there: the exception is that
    of the entry merge and the world is left as that call left it, so the
    names that remain are not visited, nothing more is read and no tree is
    created for this level. *)
Theorem merge_trees_failure fuel path labels (current base other : @Tree Oid) w e w' :
  merge_trees fuel path labels current base other w = (Raise e, w') →
  ∃ name w1,
    (is_Some (entries current !! name) ∨ is_Some (entries base !! name)
     ∨ is_Some (entries other !! name))
    ∧ world_le w w1
    ∧ merge_entries fuel (path_div path (decode_replace name)) labels
        (entries current !! name) (entries base !! name) (entries other !! name) w1
      = (Raise e, w').
Proof.
  unfold merge_trees, merge_trees_with, Tree_create. cbn zeta. unfold_monad.
  intros Hrun.
  destruct (for_each _ _ ∅ w) as [[es|e1] w1] eqn:Hloop; [done|].
  injection Hrun as <- <-.
  apply for_each_raises in Hloop as (name & w2 & Hin & Hle & Hcall);
    [|intros; apply monotone_merge_entries].
  exists name, w2. split_and!; [|done..].
  by rewrite elem_of_set_iter, elem_of_names_of in Hin.
Qed.


(** ** What an entry merge may return *)

Lemma returns_only_ret {A} (P : A → Prop) a : P a → returns_only P (ret a).
Proof. intros HP w a' w' [= <- <-]. done. Qed.

Lemma returns_only_raise {A} (P : A → Prop) e : returns_only P (raise e).
Proof. intros w a w'. done. Qed.

Lemma returns_only_bind {A B} (P : B → Prop) (c : M A) (k : A → M B) :
  (∀ a, returns_only P (k a)) → returns_only P (c ≫= k).
Proof.
  intros Hk w b w'. unfold_monad. destruct (c w) as [[a|e] w1]; [apply Hk|done].
Qed.

Lemma returns_only_conflict_prompt {T} (P : T → Prop) path descr labels (c o : T) cd od :
  P c → P o → returns_only P (conflict_prompt path descr labels c cd o od).
Proof.
  intros Hc Ho. unfold conflict_prompt.
  repeat (apply returns_only_bind; intros ?).
  repeat match goal with
         | |- returns_only _ (if ?x then _ else _) => destruct x
         end;
    first [by apply returns_only_ret | apply returns_only_raise].
Qed.

(** X14.  An entry that [merge_entries] returns is [current] or [other] as
    it is, or a new entry in two cases only: both sides are files, and the
    new entry is a file with the mode of one of them or the executable
    mode; both sides are directories, and the new entry is a directory.  So
    a merge never turns a file into a directory or the reverse, and never
    builds a new symlink or gitlink entry. *)
Theorem merge_entries_returns fuel path labels current base other w r w' :
  merge_entries fuel path labels current base other w = (Ok r, w') →
  merged_from current other r.
Proof.
  revert w r w'. change (returns_only (merged_from current other)
                           (merge_entries fuel path labels current base other)).
  assert (merged_from current other current) as Hcur by (by left).
  assert (merged_from current other other) as Hoth by (right; by left).
  destruct fuel; cbn [merge_entries];
    repeat match goal with
           | |- returns_only _ (if bool_decide _ then _ else _) => case_bool_decide
           | |- returns_only _ (if ?x then _ else _) => destruct x eqn:?
           | |- returns_only _ (match ?x with _ => _ end) => destruct x
           | |- returns_only _ (_ ≫= _) => apply returns_only_bind; intros ?
           | |- returns_only _ (raise _) => apply returns_only_raise
           | |- returns_only _ (conflict_prompt _ _ _ _ _ _ _) =>
               by apply returns_only_conflict_prompt
           | |- returns_only _ (ret ?x) => apply returns_only_ret
           end;
    try done.
  all: try match goal with
           | Hf : is_file _ && is_file _ = true |- _ => apply andb_prop in Hf as [? ?]
           end.
  all: try match goal with
           | Hm : is_file (pick_file_mode _ _ _) = false |- _ =>
               by rewrite is_file_pick_file_mode in Hm
           end.
  all: right; right; do 3 eexists;
    split; [reflexivity|split; [reflexivity|split; [reflexivity|]]]; cbn [mode].
  all: first
    [ left; split_and!; [congruence..|];
      first [ by left
            | unfold pick_file_mode;
              destruct (base_mode_is _ _); [by right; left|];
              destruct (base_mode_is _ _); [by left|by right; right] ]
    | right; split_and!; congruence ].
Qed.


(** ** The events of a merge and of a rebase *)

Lemma emits_only_ret {A} P (a : A) : emits_only P (ret a).
Proof. intros w. exists []. by rewrite app_nil_r. Qed.

Lemma emits_only_raise {A} P e : emits_only P (@raise _ _ A e).
Proof. intros w. exists []. by rewrite app_nil_r. Qed.

Lemma emits_only_lift {A} P (r : Result A) : emits_only P (lift r).
Proof. intros w. exists []. by rewrite app_nil_r. Qed.

Lemma emits_only_emit (P : Event → Prop) ev : P ev → emits_only P (emit ev).
Proof. intros HP w. exists [ev]. split; [done|]. by constructor. Qed.

Lemma emits_only_input (P : Event → Prop) prompt :
  (∀ reply, P (EvInput prompt reply)) → emits_only P (input prompt).
Proof.
  intros HP w. unfold input. destruct (stdin w); cbn; eexists; (split; [done|]);
    by constructor.
Qed.

Lemma emits_only_bind {A B} P (c : M A) (k : A → M B) :
  emits_only P c → (∀ a, emits_only P (k a)) → emits_only P (c ≫= k).
Proof.
  intros Hc Hk w. unfold_monad. destruct (Hc w) as (ev1 & He1 & HP1).
  destruct (c w) as [[a|e] w1]; cbn in *; [|by exists ev1].
  destruct (Hk a w1) as (ev2 & He2 & HP2). exists (ev1 ++ ev2).
  split; [by rewrite He2, He1, app_assoc|]. by apply Forall_app.
Qed.

Ltac events :=
  repeat first
    [ match goal with
      | |- emits_only _ (_ ≫= _) => apply emits_only_bind; [|intros ?]
      | |- emits_only _ (ret _) => apply emits_only_ret
      | |- emits_only _ (raise _) => apply emits_only_raise
      | |- emits_only _ (lift _) => apply emits_only_lift
      | |- emits_only _ (emit _) => apply emits_only_emit
      | |- emits_only _ (print _) => apply emits_only_emit
      | |- emits_only _ (input _) => apply emits_only_input; intros ?
      | |- emits_only _ (if ?x then _ else _) => destruct x
      | |- emits_only _ (match ?x with _ => _ end) => destruct x
      | |- emits_only _ (let _ := _ in _) => cbn zeta
      end
    | assumption | done ].

Lemma emits_only_conflict_prompt {T} (P : Event → Prop) path descr labels (c o : T) cd od :
  (∀ line, P (EvPrint line)) → (∀ prompt reply, P (EvInput prompt reply)) →
  emits_only P (conflict_prompt path descr labels c cd o od).
Proof. intros ??. unfold conflict_prompt. events. Qed.

Lemma emits_only_merge_blobs (P : Event → Prop) path labels (current : Blob)
    (base : option Blob) (other : Blob) :
  (∀ l0 l1 l2 f0 f1 f2, P (EvGitMergeFile l0 l1 l2 f0 f1 f2)) →
  (∀ l0 l1 l2 f0 f1 f2, P (EvKdiff3 l0 l1 l2 f0 f1 f2)) →
  (∀ prompt reply, P (EvInput prompt reply)) →
  emits_only P (merge_blobs path labels current base other).
Proof. intros ???. unfold merge_blobs. events. Qed.

Lemma emits_only_for_each {A S} P (xs : list A) (body : A → S → M S) acc :
  (∀ x acc, emits_only P (body x acc)) → emits_only P (for_each xs body acc).
Proof.
  intros Hbody. revert acc.
  induction xs as [|x xs IH]; intros acc; cbn [for_each]; events.
Qed.

Lemma emits_only_merge_trees_with (P : Event → Prop) rec path labels
    (current base other : @Tree Oid) :
  (∀ t, P (EvTreeCreate t)) →
  (∀ p l x y z, emits_only P (rec p l x y z)) →
  emits_only P (merge_trees_with rec path labels current base other).
Proof.
  intros Htree Hrec. unfold merge_trees_with, Tree_create. cbn zeta. events.
  apply emits_only_for_each. intros name es. unfold merge_named. events.
Qed.

(** The events of a merge are prints and reads, tool runs and tree
    creations. *)
Lemma merge_entries_no_commit fuel path labels current base other :
  emits_only (fun e => is_commit_event e = false)
    (merge_entries fuel path labels current base other).
Proof.
  revert path labels current base other.
  induction fuel as [|fuel IH]; intros path labels current base other;
    cbn [merge_entries]; events;
    try (by apply emits_only_conflict_prompt);
    try (by apply emits_only_merge_blobs);
    by apply emits_only_merge_trees_with.
Qed.

Lemma merge_trees_no_commit fuel path labels (current base other : @Tree Oid) :
  emits_only (fun e => is_commit_event e = false)
    (merge_trees fuel path labels current base other).
Proof.
  apply emits_only_merge_trees_with; [done|]. intros. apply merge_entries_no_commit.
Qed.

(** X15.  [rebase] creates at most one commit, as its last act and only
    when the merge has returned a tree: the new commit has the oid of the
    merged tree, the new parent as its only parent and the message and the
    author of the original commit.  When the merge raises, [rebase] raises
    the same exception and no commit has been created. *)
Theorem rebase_commit_created fuel (commit parent : Commit) w r w' :
  Commit_oid (Commit_parent commit) ≠ Commit_oid parent →
  rebase fuel commit parent w = (r, w') →
  match r with
  | Ok c' =>
      ∃ tree w1 events,
        merge_trees fuel path_root ("new parent", "old parent", "incoming")
          (Commit_tree parent) (Commit_tree (Commit_parent commit))
          (Commit_tree commit) w = (Ok tree, w1)
        ∧ c' = Commit_create (Tree_oid tree) [Commit_oid parent]
                 (Commit_message commit) (Commit_author commit)
        ∧ stdin w' = stdin w1
        ∧ trace w' = trace w ++ events ++ [EvCommitCreate c']
        ∧ Forall (fun e => is_commit_event e = false) events
  | Raise e =>
      merge_trees fuel path_root ("new parent", "old parent", "incoming")
        (Commit_tree parent) (Commit_tree (Commit_parent commit))
        (Commit_tree commit) w = (Raise e, w')
      ∧ ∃ events, trace w' = trace w ++ events
                  ∧ Forall (fun e => is_commit_event e = false) events
  end.
Proof.
  intros Hne. unfold rebase, Commit_eqb, Commit_create'.
  rewrite bool_decide_eq_false_2 by done. unfold_monad.
  destruct (merge_trees_no_commit fuel path_root ("new parent", "old parent", "incoming")
              (Commit_tree parent) (Commit_tree (Commit_parent commit))
              (Commit_tree commit) w) as (events & Hev & Hno).
  destruct (merge_trees _ _ _ _ _ _ w) as [[tree|e] w1]; cbn in *; intros [= <- <-].
  - exists tree, w1, events. split_and!; [done..| |done].
    cbn. by rewrite Hev, app_assoc.
  - split; [done|]. by exists events.
Qed.

(** X16.  Rebasing onto a new parent that has the tree of the old parent
    keeps the tree of the commit, and rebasing a commit that has the tree
    of its parent takes the tree of the new parent.  In both cases nothing
    is asked and no tool is run: the run creates that tree and the new
    commit, and reads nothing. *)
Theorem rebase_unchanged_tree fuel (commit parent : Commit) w :
  Commit_oid (Commit_parent commit) ≠ Commit_oid parent →
  let new_commit tree :=
    Commit_create (Tree_oid tree) [Commit_oid parent]
      (Commit_message commit) (Commit_author commit) in
  let created tree :=
    mkWorld (stdin w)
      (trace w ++ [EvTreeCreate tree; EvCommitCreate (new_commit tree)]) in
  (Commit_tree parent = Commit_tree (Commit_parent commit) →
     rebase fuel commit parent w
     = (Ok (new_commit (Commit_tree commit)), created (Commit_tree commit)))
  ∧ (Commit_tree commit = Commit_tree (Commit_parent commit) →
     rebase fuel commit parent w
     = (Ok (new_commit (Commit_tree parent)), created (Commit_tree parent))).
Proof.
  intros Hne new_commit created. subst new_commit created.
  unfold rebase, Commit_eqb, Commit_create'.
  rewrite bool_decide_eq_false_2 by done. unfold_monad. split.
  - intros ->.
    destruct (merge_trees_settled_run fuel path_root
                ("new parent", "old parent", "incoming")
                (Commit_tree (Commit_parent commit)) (Commit_tree (Commit_parent commit))
                (Commit_tree commit) w) as (t & -> & Ht); [intros; by left|].
    assert (t = Commit_tree commit) as ->.
    { apply tree_eq. intros name. rewrite Ht. unfold resolve. by rewrite decide_True. }
    cbn. by rewrite <- app_assoc.
  - intros ->.
    destruct (merge_trees_settled_run fuel path_root
                ("new parent", "old parent", "incoming")
                (Commit_tree parent) (Commit_tree (Commit_parent commit))
                (Commit_tree (Commit_parent commit)) w) as (t & -> & Ht);
      [intros; right; by left|].
    assert (t = Commit_tree parent) as ->.
    { apply tree_eq. intros name. rewrite Ht. unfold resolve. by case_decide. }
    cbn. by rewrite <- app_assoc.
Qed.

(** ** More on [merge_blobs] *)

(** X17.  A missing base is merged as an empty base: [merge_blobs] with no
    base blob does what it does with a base blob of no bytes, the same
    tools on the same contents. *)
Theorem merge_blobs_no_base path labels (current other : Blob) w :
  merge_blobs path labels current None other w
  = merge_blobs path labels current (Some (mkBlob [])) other w.
Proof. by rewrite !merge_blobs_run. Qed.

(** X18.  After a conflicted primary merge, with the merged file written,
    [merge_blobs] returns the merged blob exactly when the reply is "y" or
    "Y"; every other reply, "yes" included, abandons the merge with
    [MergeConflict]. *)
Theorem merge_blobs_confirmation path labels (current : Blob) (base : option Blob)
    (other : Blob) w reply rest merged :
  (0 < (run_merge_file path labels current base other).1)%Z →
  stdin w = reply :: rest →
  run_kdiff3 path labels current base other = Some merged →
  ((merge_blobs path labels current base other w).1 = Ok (mkBlob merged)
   ↔ reply = "y" ∨ reply = "Y")
  ∧ (¬ (reply = "y" ∨ reply = "Y") →
     (merge_blobs path labels current base other w).1
     = Raise (MergeConflict "merging failed")).
Proof.
  intros Hpos Hin Hfile. rewrite merge_blobs_run. cbn zeta.
  destruct (Z.eqb_spec (run_merge_file path labels current base other).1 0); [lia|].
  destruct (Z.ltb_spec (run_merge_file path labels current base other).1 0); [lia|].
  rewrite Hin, Hfile. cbn [fst]. rewrite <- lower_is_y.
  destruct (String.eqb_spec (lower reply) "y") as [Hy|Hy]; cbn [negb]; by split.
Qed.

(** X19.  The two ways the fallback stage fails without a reply being
    refused: with no line left to read, [merge_blobs] raises [EOFError]
    after both tools have run; with a confirmation but no merged file
    written by the fallback tool, it raises [FileNotFoundError]. *)
Theorem merge_blobs_fallback_errors path labels (current : Blob) (base : option Blob)
    (other : Blob) w :
  (0 < (run_merge_file path labels current base other).1)%Z →
  (stdin w = [] →
     merge_blobs path labels current base other w
     = (Raise EOFError,
        mkWorld [] (trace w ++ [ev_merge_file path labels current base other;
                                ev_kdiff3 path labels current base other;
                                EvInput confirm_prompt None])))
  ∧ (∀ reply rest, stdin w = reply :: rest → lower reply = "y" →
       run_kdiff3 path labels current base other = None →
       (merge_blobs path labels current base other w).1 = Raise FileNotFoundError).
Proof.
  intros Hpos. rewrite merge_blobs_run. cbn zeta.
  destruct (Z.eqb_spec (run_merge_file path labels current base other).1 0); [lia|].
  destruct (Z.ltb_spec (run_merge_file path labels current base other).1 0); [lia|].
  split.
  - by intros ->.
  - intros reply rest -> Hy Hfile. by rewrite Hy, Hfile.
Qed.

End MergeProps.

(** * The properties on the sample repository *)

Section SampleRuns.

Import Sample.

Lemma tree_top_shallow : shallow 1 tree_top.
Proof. apply (bool_decide_unpack _). vm_compute. exact I. Defined.

Lemma merge_entries_resolution_order_witness :
  merge_entries 0 (at_path "/f") labels (Some file_b) (Some file_a) (Some file_a) (world [])
  = (Ok (Some file_b), world [])
  ∧ merge_entries 0 (at_path "/f") labels (Some file_b) None (Some file_b) (world [])
    = (Ok (Some file_b), world [])
  ∧ conflicting None (Some file_a) (Some file_b).
Proof.
  destruct (merge_entries_resolution_order 0 (at_path "/f") labels
              (Some file_b) (Some file_a) (Some file_a) (world [])) as (_ & H2 & _).
  destruct (merge_entries_resolution_order 0 (at_path "/f") labels
              (Some file_b) None (Some file_b) (world [])) as (_ & _ & H3 & _).
  destruct (merge_entries_resolution_order 0 (at_path "/f") labels
              None (Some file_a) (Some file_b) (world ["2"])) as (_ & _ & _ & H4).
  split_and!.
  - apply H2; [discriminate|reflexivity].
  - apply H3; [discriminate|discriminate|reflexivity].
  - eapply H4; [reflexivity|]. left. discriminate.
Defined.

Lemma merge_entries_deleted_in_current_witness :
  file_a ≠ file_b
  ∧ merge_entries 0 (at_path "/f") labels None (Some file_a) (Some file_b) (world ["2"])
    = (Ok (Some file_b),
       mkWorld [] [ EvPrint "Deletion conflict for '/f'";
                    EvPrint "  (1) ours: deleted";
                    EvPrint "  (2) base: modified";
                    EvInput "Resolution or (A)bort? " (Some "2") ])
  ∧ merge_entries 0 (at_path "/f") labels None (Some file_a) (Some file_b) (world ["1"])
    = (Ok None,
       mkWorld [] [ EvPrint "Deletion conflict for '/f'";
                    EvPrint "  (1) ours: deleted";
                    EvPrint "  (2) base: modified";
                    EvInput "Resolution or (A)bort? " (Some "1") ]).
Proof.
  assert (file_a ≠ file_b) as Hne by discriminate.
  split_and!; [exact Hne|..].
  - destruct (merge_entries_deleted_in_current 0 (at_path "/f") labels
                file_a file_b (world ["2"]) Hne) as (_ & H2 & _).
    exact (H2 [] eq_refl).
  - destruct (merge_entries_deleted_in_current 0 (at_path "/f") labels
                file_a file_b (world ["1"]) Hne) as (_ & _ & H1).
    exact (H1 [] eq_refl).
Defined.

Lemma merge_entries_file_mode_conflict_witness :
  (* base regular, current made executable, other changed the content *)
  (merge_entries 0 (at_path "/f") labels (Some exec_a) (Some file_a) (Some file_b) (world [])).1
  = Ok (Some (mkEntry EXEC (Blob_oid (mkBlob (b "b"))))).
Proof.
  destruct (merge_entries_file_mode_conflict 0 (at_path "/f") labels
              exec_a (Some file_a) file_b (world [])) as (_ & _ & Hrun);
    [discriminate|reflexivity|reflexivity|].
  rewrite Hrun; [|discriminate|discriminate]. vm_compute. reflexivity.
Defined.

Lemma merge_entries_file_mode_no_base_witness :
  (merge_entries 0 (at_path "/f") labels (Some file_a) None (Some exec_b) (world ["y"])).1
  = Ok (Some (mkEntry EXEC (Blob_oid (mkBlob (b "ab"))))).
Proof.
  rewrite (merge_entries_file_mode_no_base 0 (at_path "/f") labels
             file_a exec_b (world ["y"]));
    [|discriminate|reflexivity|reflexivity].
  vm_compute. reflexivity.
Defined.

Lemma merge_blobs_protocol_witness :
  merge_blobs (at_path "/f") labels (mkBlob (b "a")) (Some (mkBlob (b "a")))
    (mkBlob (b "b")) (world ["n"])
  = (Ok (mkBlob (b "b")),
     mkWorld ["n"] [EvGitMergeFile "/f (ours)" "/f (base)" "/f (theirs)"
                      (b "a") (b "a") (b "b")])
  ∧ merge_blobs (at_path "/f") labels (mkBlob (b "a")) None (mkBlob (b "b")) (world [""])
    = (Raise (MergeConflict "merging failed"),
       mkWorld [] [EvGitMergeFile "/f (ours)" "/f (base)" "/f (theirs)" (b "a") [] (b "b");
                   EvKdiff3 "/f (base)" "/f (ours)" "/f (theirs)" [] (b "a") (b "b");
                   EvInput confirm_prompt (Some "")])
  ∧ merge_blobs (at_path "/f") labels (mkBlob (b "a")) None (mkBlob (b "b")) (world ["Y"])
    = (Ok (mkBlob (b "ab")),
       mkWorld [] [EvGitMergeFile "/f (ours)" "/f (base)" "/f (theirs)" (b "a") [] (b "b");
                   EvKdiff3 "/f (base)" "/f (ours)" "/f (theirs)" [] (b "a") (b "b");
                   EvInput confirm_prompt (Some "Y")]).
Proof.
  split_and!.
  - destruct (merge_blobs_protocol (at_path "/f") labels (mkBlob (b "a"))
                (Some (mkBlob (b "a"))) (mkBlob (b "b")) (world ["n"])) as (H0 & _).
    exact (H0 eq_refl).
  - destruct (merge_blobs_protocol (at_path "/f") labels (mkBlob (b "a"))
                None (mkBlob (b "b")) (world [""])) as (_ & Hno & _).
    apply (Hno "" []); [reflexivity|reflexivity|discriminate].
  - destruct (merge_blobs_protocol (at_path "/f") labels (mkBlob (b "a"))
                None (mkBlob (b "b")) (world ["Y"])) as (_ & _ & Hyes).
    apply (Hyes "Y" [] (b "ab")); reflexivity.
Defined.

Lemma merge_blobs_tool_error_witness :
  merge_blobs (at_path "/f") labels (mkBlob (b "a")) None (mkBlob (b "!")) (world ["y"])
  = (Raise (MergeConflict "git merge-file errored"),
     mkWorld ["y"] [EvGitMergeFile "/f (ours)" "/f (base)" "/f (theirs)"
                      (b "a") [] (b "!")]).
Proof.
  destruct (merge_blobs_tool_error (at_path "/f") labels (mkBlob (b "a")) None
              (mkBlob (b "!")) (world ["y"])) as (e & Hrun & -> & _);
    [reflexivity|].
  exact Hrun.
Defined.

(** C5, as the spec has it, fails: on the sample host the primary tool
    returns -1 on the content "!", and what [merge_blobs] then raises is a
    [MergeConflict], the class of the abandonment signal that the resolver
    raises on the reply "A": the two are caught by the same handler. *)
Lemma tool_failure_is_a_merge_conflict :
  let failed := (merge_blobs (at_path "/f") labels (mkBlob (b "a")) None
                   (mkBlob (b "!")) (world [])).1 in
  let abandoned := (conflict_prompt (at_path "/f") "Deletion" labels
                      (None : option (@Entry N)) "deleted" (Some file_a) "modified"
                      (world ["A"])).1 in
  ((run_merge_file (at_path "/f") labels (mkBlob (b "a")) None (mkBlob (b "!"))).1 < 0)%Z
  ∧ (∃ e, abandoned = Raise e ∧ is_MergeConflict e = true)
  ∧ ¬ (∃ e, failed = Raise e ∧ is_MergeConflict e = false).
Proof.
  split_and!.
  - reflexivity.
  - eexists. split; reflexivity.
  - intros (e & He & Hclass). vm_compute in He. injection He as <-. discriminate.
Qed.

Lemma rebase_same_parent_witness :
  Commit_oid (Commit_parent commit_1) = Commit_oid commit_0
  ∧ rebase 0 commit_1 commit_0 (world []) = (Ok commit_1, world []).
Proof.
  assert (Commit_oid (Commit_parent commit_1) = Commit_oid commit_0) as Heq
    by (vm_compute; reflexivity).
  split; [exact Heq|].
  exact (rebase_same_parent 0 commit_1 commit_0 (world []) Heq).
Defined.


Lemma merge_trees_names_witness :
  (merge_trees 1 (at_path "/") labels tree_top Tree_empty tree_top' (world ["y"])).1
  = Ok merged_top
  ∧ entries merged_top !! b "h" = None
  ∧ ∃ w1 w2,
      merge_entries 1 (at_path "/g") labels None None (Some file_b) w1
      = (Ok (entries merged_top !! b "g"), w2).
Proof.
  destruct (merge_trees 1 (at_path "/") labels tree_top Tree_empty tree_top'
              (world ["y"])) as [r w'] eqn:Hrun.
  assert (r = Ok merged_top) as ->
    by (apply (f_equal fst) in Hrun; vm_compute in Hrun; symmetry; exact Hrun).
  pose proof (merge_trees_names 1 (at_path "/") labels tree_top Tree_empty tree_top'
                (world ["y"]) merged_top w' Hrun) as Hnames.
  split_and!; [reflexivity|..].
  - destruct (Hnames (b "h")) as [Hout _]. apply Hout; reflexivity.
  - destruct (Hnames (b "g")) as [_ Hin].
    destruct Hin as (w1 & w2 & merged & _ & _ & Hcall & Hres).
    { right. right. eexists. reflexivity. }
    exists w1, w2. rewrite Hres. exact Hcall.
Defined.

Lemma merge_trees_same_witness :
  merge_trees 0 (at_path "/") labels tree_top tree_top tree_top (world ["1"; "y"])
  = (Ok tree_top, mkWorld ["1"; "y"] [EvTreeCreate tree_top]).
Proof.
  exact (proj1 (merge_trees_same 0 (at_path "/") labels tree_top (world ["1"; "y"]))).
Defined.

Lemma merge_trees_enough_fuel_witness :
  shallow 1 tree_top
  ∧ ∃ t, (merge_trees 1 (at_path "/") labels tree_top Tree_empty tree_top'
            (world ["y"])).1 = Ok t.
Proof.
  split; [exact tree_top_shallow|].
  destruct (merge_trees_enough_fuel 1 (at_path "/") labels tree_top Tree_empty tree_top'
              (world ["y"]) tree_top_shallow) as [Hok|(e & He & _)]; [exact Hok|].
  vm_compute in He. discriminate He.
Defined.

(** C10 on a conflict between two symlinks, one of whose targets is the
    byte ff: [merge_entries] raises [UnicodeDecodeError] while it builds
    the descriptions for the resolver.  Nothing has been printed or asked:
    the reply that waits on standard input is still there. *)
Theorem merge_entries_undecodable_symlink :
  Entry_symlink link_bad = [xff]
  ∧ merge_entries 0 (at_path "/l") labels (Some link_bad) None (Some link_a) (world ["1"])
    = (Raise UnicodeDecodeError, world ["1"])
  ∧ conflict_prompt (at_path "/l") "Symlink" labels (Some link_bad) "?" (Some link_a) "a"
      (world ["1"])
    = (Ok (Some link_bad),
       mkWorld [] [ EvPrint "Symlink conflict for '/l'";
                    EvPrint "  (1) ours: ?";
                    EvPrint "  (2) base: a";
                    EvInput "Resolution or (A)bort? " (Some "1") ]).
Proof. split_and!; reflexivity. Qed.


(** ** The further properties on the sample repository *)

Lemma conflict_prompt_replies_witness :
  conflict_prompt (at_path "/f") "Deletion" labels (Some file_a) "modified"
    (None : option (@Entry N)) "deleted" (world ["abort"; "1"])
  = (Raise (MergeConflict "aborted"),
     mkWorld ["1"] [ EvPrint "Deletion conflict for '/f'";
                     EvPrint "  (1) ours: modified";
                     EvPrint "  (2) base: deleted";
                     EvInput "Resolution or (A)bort? " (Some "abort") ]).
Proof.
  destruct (conflict_prompt_replies (at_path "/f") "Deletion" labels (Some file_a)
              (None : option (@Entry N)) "modified" "deleted" (world ["abort"; "1"]))
    as [_ Hreply].
  destruct (Hreply "abort" ["1"] eq_refl) as (r & Hrun & _ & _ & Habort).
  rewrite Hrun. rewrite Habort; [reflexivity|discriminate|discriminate].
Defined.

Lemma conflict_prompt_third_label_witness :
  conflict_prompt (at_path "/f") "Deletion" ("ours", "base", "theirs")
    (Some file_a) "modified" (None : option (@Entry N)) "deleted" (world ["2"])
  = conflict_prompt (at_path "/f") "Deletion" ("ours", "base", "anything")
      (Some file_a) "modified" None "deleted" (world ["2"]).
Proof.
  exact (proj1 (conflict_prompt_third_label (at_path "/f") "Deletion"
                  "ours" "base" "theirs" "anything" (Some file_a)
                  (None : option (@Entry N)) "modified" "deleted" (world ["2"]))).
Defined.

Lemma merge_entries_deleted_in_other_witness :
  file_a ≠ file_b
  ∧ (merge_entries 0 (at_path "/f") labels (Some file_b) (Some file_a) None (world ["2"])).1
    = Ok None.
Proof.
  assert (file_a ≠ file_b) as Hne by discriminate.
  split; [exact Hne|].
  destruct (merge_entries_deleted_in_other 0 (at_path "/f") labels file_b file_a
              (world ["2"]) Hne) as (_ & _ & H2).
  rewrite (H2 [] eq_refl). reflexivity.
Defined.

Lemma merge_entries_type_conflict_witness :
  (merge_entries 0 (at_path "/f") labels (Some dir_1) None (Some file_a) (world ["2"])).1
  = Ok (Some file_a).
Proof.
  destruct (merge_entries_type_conflict 0 (at_path "/f") labels dir_1 None file_a
              (world ["2"])) as (_ & _ & H2);
    [discriminate|discriminate|discriminate|reflexivity|].
  exact (H2 [] eq_refl).
Defined.

Lemma merge_entries_same_file_mode_witness :
  (* the base was a directory: the two files are merged with no base *)
  (merge_entries 0 (at_path "/f") labels (Some file_a) (Some dir_1) (Some file_b)
     (world ["y"])).1
  = Ok (Some (mkEntry REGULAR (Blob_oid (mkBlob (b "ab"))))).
Proof.
  destruct (merge_entries_same_file_mode 0 (at_path "/f") labels file_a (Some dir_1)
              file_b (world ["y"])) as (Hrun & _);
    [discriminate|discriminate|discriminate|reflexivity|reflexivity|].
  rewrite Hrun. vm_compute. reflexivity.
Defined.

Lemma merge_entries_directories_witness :
  (merge_entries 1 (at_path "/d") labels (Some dir_1) None (Some dir_2) (world ["y"])).1
  = Ok (Some (mkEntry DIR
                (Tree_oid (mkTree {[ b "x" := mkEntry REGULAR (Blob_oid (mkBlob (b "ab")));
                                     b "y" := exec_a ]}))))
  ∧ merge_entries 0 (at_path "/d") labels (Some dir_1) None (Some dir_2) (world ["y"])
    = (Raise RecursionError, world ["y"]).
Proof.
  destruct (merge_entries_directories 0 (at_path "/d") labels dir_1 None dir_2
              (world ["y"])) as (Hrun & Hstop);
    [discriminate|discriminate|discriminate|reflexivity|reflexivity|].
  split; [|exact Hstop].
  rewrite Hrun. vm_compute. reflexivity.
Defined.

Lemma merge_entries_symlinks_witness :
  (merge_entries 0 (at_path "/l") labels (Some link_a) None (Some link_b) (world ["2"])).1
  = Ok (Some link_b)
  ∧ merge_entries 0 (at_path "/l") labels (Some link_a) None (Some link_bad) (world ["2"])
    = (Raise UnicodeDecodeError, world ["2"]).
Proof.
  split.
  - destruct (merge_entries_symlinks 0 (at_path "/l") labels link_a None link_b
                (world ["2"])) as (Hrun & _);
      [discriminate|discriminate|discriminate|reflexivity|reflexivity|].
    rewrite Hrun. reflexivity.
  - destruct (merge_entries_symlinks 0 (at_path "/l") labels link_a None link_bad
                (world ["2"])) as (_ & Hbad);
      [discriminate|discriminate|discriminate|reflexivity|reflexivity|].
    apply Hbad. right. reflexivity.
Defined.

Lemma merge_entries_gitlinks_witness :
  (merge_entries 0 (at_path "/s") labels (Some sub_1) None (Some sub_2) (world ["1"])).1
  = Ok (Some sub_1).
Proof.
  destruct (merge_entries_gitlinks 0 (at_path "/s") labels sub_1 None sub_2
              (world ["1"])) as (_ & H1 & _);
    [discriminate|discriminate|discriminate|reflexivity|reflexivity|].
  exact (H1 [] eq_refl).
Defined.

Lemma merge_entries_settled_sym_witness :
  settled (Some file_b) (Some file_a) (Some file_a)
  ∧ merge_entries 0 (at_path "/f") labels (Some file_b) (Some file_a) (Some file_a) (world [])
    = merge_entries 0 (at_path "/f") labels (Some file_a) (Some file_a) (Some file_b) (world []).
Proof.
  assert (settled (Some file_b) (Some file_a) (Some file_a)) as Hs
    by (right; left; reflexivity).
  split; [exact Hs|].
  exact (proj1 (merge_entries_settled_sym 0 (at_path "/f") labels (Some file_b)
                  (Some file_a) (Some file_a) (world []) Hs)).
Defined.


Lemma merge_trees_settled_witness :
  ∃ t, merge_trees 0 (at_path "/") labels tree_top tree_top tree_top' (world ["1"])
       = (Ok t, mkWorld ["1"] [EvTreeCreate t])
       ∧ entries t !! b "g" = Some file_b ∧ entries t !! b "f" = None.
Proof.
  destruct (merge_trees_settled 0 (at_path "/") labels tree_top tree_top tree_top'
              (world ["1"])) as (t & Hrun & Hother & _).
  { intros name. left. reflexivity. }
  exists t. split_and!; [exact Hrun|..].
  - rewrite Hother; reflexivity.
  - rewrite Hother; reflexivity.
Defined.

Lemma merge_trees_settled_sym_witness :
  merge_trees 0 (at_path "/") labels tree_top tree_top tree_top' (world [])
  = merge_trees 0 (at_path "/") labels tree_top' tree_top tree_top (world []).
Proof.
  apply (merge_trees_settled_sym 0 (at_path "/") labels tree_top tree_top tree_top'
           (world [])).
  intros name. left. reflexivity.
Defined.

Lemma merge_trees_failure_witness :
  (merge_trees 1 (at_path "/") labels tree_top Tree_empty tree_top' (world [])).1
  = Raise EOFError
  ∧ ∃ name w1,
      (merge_entries 1 (path_div (at_path "/") (decode_replace name)) labels
         (entries tree_top !! name) None (entries tree_top' !! name) w1).1
      = Raise EOFError.
Proof.
  destruct (merge_trees 1 (at_path "/") labels tree_top Tree_empty tree_top' (world []))
    as [r w'] eqn:Hrun.
  assert (r = Raise EOFError) as ->
    by (apply (f_equal fst) in Hrun; vm_compute in Hrun; symmetry; exact Hrun).
  split; [reflexivity|].
  destruct (merge_trees_failure 1 (at_path "/") labels tree_top Tree_empty tree_top'
              (world []) EOFError w' Hrun) as (name & w1 & _ & _ & Hcall).
  exists name, w1. change (entries Tree_empty !! name) with (@None (@Entry N)) in Hcall.
  rewrite Hcall. reflexivity.
Defined.

Lemma merge_entries_returns_witness :
  merged_from (Some exec_a) (Some file_b)
    (Some (mkEntry EXEC (Blob_oid (mkBlob (b "b"))))).
Proof.
  destruct (merge_entries 0 (at_path "/f") labels (Some exec_a) (Some file_a)
              (Some file_b) (world [])) as [r w'] eqn:Hrun.
  assert (r = Ok (Some (mkEntry EXEC (Blob_oid (mkBlob (b "b")))))) as ->
    by (apply (f_equal fst) in Hrun; vm_compute in Hrun; symmetry; exact Hrun).
  exact (merge_entries_returns 0 (at_path "/f") labels (Some exec_a) (Some file_a)
           (Some file_b) (world []) _ w' Hrun).
Defined.

Lemma commit_2_not_parent : Commit_oid (Commit_parent commit_1) ≠ Commit_oid commit_2.
Proof. apply N.eqb_neq. vm_compute. reflexivity. Defined.

Lemma commit_3_not_parent : Commit_oid (Commit_parent commit_1) ≠ Commit_oid commit_3.
Proof. apply N.eqb_neq. vm_compute. reflexivity. Defined.

Lemma rebase_commit_created_witness :
  ∃ c', (rebase 0 (as_commit commit_1) (as_commit commit_2) (world [])).1 = Ok c'
        ∧ sc_parents c' = [Commit_oid commit_2]
        ∧ sc_message c' = sc_message commit_1 ∧ sc_author c' = sc_author commit_1.
Proof.
  destruct (rebase 0 (as_commit commit_1) (as_commit commit_2) (world [])) as [r w'] eqn:Hrun.
  pose proof (rebase_commit_created 0 (as_commit commit_1) (as_commit commit_2)
                (world []) r w'
                commit_2_not_parent Hrun) as Hspec.
  destruct r as [c'|e].
  - destruct Hspec as (tree & w1 & events & _ & -> & _).
    eexists. split; [reflexivity|]. split_and!; reflexivity.
  - apply (f_equal fst) in Hrun. vm_compute in Hrun. discriminate Hrun.
Defined.

Lemma rebase_unchanged_tree_witness :
  Commit_tree commit_3 = Commit_tree (Commit_parent commit_1)
  ∧ (rebase 0 (as_commit commit_1) (as_commit commit_3) (world ["1"])).1
    = Ok (mkCommit (Tree_oid tree_top') [Commit_oid commit_3] (b "second") (b "A"))
  ∧ stdin (rebase 0 (as_commit commit_1) (as_commit commit_3) (world ["1"])).2 = ["1"].
Proof.
  assert (Commit_tree commit_3 = Commit_tree (Commit_parent commit_1)) as Htree
    by (vm_compute; reflexivity).
  split; [exact Htree|].
  destruct (rebase_unchanged_tree 0 (as_commit commit_1) (as_commit commit_3)
              (world ["1"]) commit_3_not_parent)
    as [Hsame _].
  rewrite (Hsame Htree). split; [|reflexivity].
  vm_compute. reflexivity.
Defined.

Lemma merge_blobs_confirmation_witness :
  (merge_blobs (at_path "/f") labels (mkBlob (b "a")) None (mkBlob (b "b")) (world ["yes"])).1
  = Raise (MergeConflict "merging failed")
  ∧ (merge_blobs (at_path "/f") labels (mkBlob (b "a")) None (mkBlob (b "b")) (world ["Y"])).1
    = Ok (mkBlob (b "ab")).
Proof.
  split.
  - destruct (merge_blobs_confirmation (at_path "/f") labels (mkBlob (b "a")) None
                (mkBlob (b "b")) (world ["yes"]) "yes" [] (b "ab")) as [_ Hno];
      [reflexivity|reflexivity|reflexivity|].
    apply Hno. intros [?|?]; discriminate.
  - destruct (merge_blobs_confirmation (at_path "/f") labels (mkBlob (b "a")) None
                (mkBlob (b "b")) (world ["Y"]) "Y" [] (b "ab")) as [[_ Hyes] _];
      [reflexivity|reflexivity|reflexivity|].
    apply Hyes. right. reflexivity.
Defined.

Lemma merge_blobs_fallback_errors_witness :
  merge_blobs (at_path "/f") labels (mkBlob (b "a")) None (mkBlob (b "b")) (world [])
  = (Raise EOFError,
     mkWorld [] [EvGitMergeFile "/f (ours)" "/f (base)" "/f (theirs)" (b "a") [] (b "b");
                 EvKdiff3 "/f (base)" "/f (ours)" "/f (theirs)" [] (b "a") (b "b");
                 EvInput confirm_prompt None]).
Proof.
  destruct (merge_blobs_fallback_errors (at_path "/f") labels (mkBlob (b "a")) None
              (mkBlob (b "b")) (world [])) as [Heof _]; [reflexivity|].
  exact (Heof eq_refl).
Defined.

End SampleRuns.
